(** * The live voice session hook

    A shallow embedding of [src/hooks/useLiveSession.ts]: the hook's React
    state and refs become one record, every callback of the hook becomes a
    computation over that record which also yields the calls it makes on the
    platform and on its collaborators, and a JavaScript exception becomes an
    abrupt completion that keeps the mutations made before it.

    Conventions of the model.
    - Times on the output context's timeline ([ctx.currentTime], the [when] of
      [source.start], [audioBuffer.duration]) are counted in sample frames of
      the 24 kHz output context and are integers.
    - Two callbacks reach an [await]: [connect], for the input device, and
      [onmessage], for the decoder.  Each is given in two halves, up to its
      [await] and from it on.  [connect] and [handleAudio] compose the halves
      of a call that nothing overlaps.  The life of a session ([lifecycle])
      also has the halves of [connect] as steps of their own; inbound messages
      are delivered one handler at a time ([deliver]), and what an overlap
      does to the schedule is stated on the halves of the audio block.
    - A state setter writes the hook's state at once.  [connect] does not
      read the state: it reads the two flags its render closed over
      ([Render]); no other callback reads a flag.
    - [cleanup] does not close the channel.  It chains a callback on the
      channel's promise ([closeWhenSettled]), which runs in a step of its own
      when the promise settles.
    - What the platform answers during a callback (clock readings, the
      credential, the device stream) is an argument of it.
    - Platform objects are known by their identity, a [Handle].
    - The helpers of [../utils/audioUtils] are not among the sources:
      [base64ToBytes] and [decodeAudioData] are parameters of the callbacks,
      [createBlob] is modelled from the specification in [Encoder], and the
      capture callback that sends its blobs is left out.
    - Console output is not part of the model. *)

From Stdlib Require Import ZArith List String Ascii Bool Lia DecimalString.
From Stdlib Require Import QArith Qabs.
Import ListNotations.
Local Open Scope string_scope.
Local Open Scope list_scope.
Local Open Scope Z_scope.

(** ** Data of [src/types.ts] and of the Live API messages *)

Inductive Role := user | model.

(** [Message] of [src/types.ts]; [timestamp] is the reading of the wall
    clock taken by [new Date()], in milliseconds. *)
Record Message := {
  id : string;
  role : Role;
  text : string;
  timestamp : Z;
  isPartial : bool
}.

(** The fields of [LiveServerMessage] that [onmessage] reads.  An optional
    field is an [option]; an optional boolean that is absent reads as
    [false].  The [text] of a transcription is its [fragment] here, [text]
    being the field of [Message]. *)
Record Blob := { data : option string }.
Record Part := { inlineData : option Blob }.
Record Content := { parts : option (list Part) }.
Record Transcription := { fragment : option string }.
Record ServerContent := {
  modelTurn : option Content;
  interrupted : bool;
  outputTranscription : option Transcription;
  inputTranscription : option Transcription;
  turnComplete : bool
}.
Record LiveServerMessage := { serverContent : option ServerContent }.

(** ** Platform objects *)

Definition Handle := nat.

(** An [AudioBuffer], of which the hook reads the duration only. *)
Record AudioBuffer := { duration : Z }.

Record AudioBufferSourceNode := {
  source_id : Handle;
  buffer : AudioBuffer
}.

Record MediaStream := { getTracks : list Handle }.

Inductive AudioNode :=
| BufferSource (h : Handle)
| Analyser (h : Handle)
| StreamSource (h : Handle)
| ScriptProcessor (h : Handle)
| Destination (ctx : Handle).

(** Calls that leave the hook, in the order they are made.  [ESessionThen]
    is the [then] that [cleanup] calls on the channel's promise;
    [ESessionClose] is [session.close()], which only the callback chained by
    that [then] calls. *)
Inductive Effect :=
| EOnMessage (m : Message)
| EOnConnect
| EOnDisconnect
| EOnError (msg : string)
| ENewAudioContext (ctx : Handle) (sampleRate : Z)
| ECreateAnalyser (ctx node : Handle)
| EGetUserMedia
| ELiveConnect (session : Handle)
| ECreateNode (ctx : Handle) (node : AudioNode)
| EConnect (src dst : AudioNode)
| EStart (source : AudioBufferSourceNode) (when : Z)
| EStop (source : Handle)
| ETrackStop (track : Handle)
| EDisconnect (node : AudioNode)
| EClose (ctx : Handle)
| ESessionThen (session : Handle)
| ESessionClose (session : Handle).

(** ** The hook's state: [useState] flags and [useRef] cells *)

Record Hook := {
  isConnected : bool;
  isConnecting : bool;
  inputAudioContextRef : option Handle;
  outputAudioContextRef : option Handle;
  inputAnalyserRef : option Handle;
  outputAnalyserRef : option Handle;
  scriptProcessorRef : option Handle;
  mediaStreamRef : option MediaStream;
  sessionRef : option Handle;
  nextStartTimeRef : Z;
  audioSourcesRef : list AudioBufferSourceNode;
  currentInputTranscription : string;
  currentOutputTranscription : string;
  (** the next identity the platform hands out; not a cell of the hook *)
  heap : Handle
}.

(** The hook as [useLiveSession] first returns it. *)
Definition initialHook : Hook := {|
  isConnected := false; isConnecting := false;
  inputAudioContextRef := None; outputAudioContextRef := None;
  inputAnalyserRef := None; outputAnalyserRef := None;
  scriptProcessorRef := None; mediaStreamRef := None;
  sessionRef := None;
  nextStartTimeRef := 0; audioSourcesRef := [];
  currentInputTranscription := ""; currentOutputTranscription := "";
  heap := O
|}.

Definition set_nextStartTimeRef (v : Z) (h : Hook) : Hook := {|
  isConnected := isConnected h; isConnecting := isConnecting h;
  inputAudioContextRef := inputAudioContextRef h;
  outputAudioContextRef := outputAudioContextRef h;
  inputAnalyserRef := inputAnalyserRef h;
  outputAnalyserRef := outputAnalyserRef h;
  scriptProcessorRef := scriptProcessorRef h;
  mediaStreamRef := mediaStreamRef h;
  sessionRef := sessionRef h;
  nextStartTimeRef := v;
  audioSourcesRef := audioSourcesRef h;
  currentInputTranscription := currentInputTranscription h;
  currentOutputTranscription := currentOutputTranscription h;
  heap := heap h
|}.

Definition set_audioSourcesRef (v : list AudioBufferSourceNode) (h : Hook) : Hook := {|
  isConnected := isConnected h; isConnecting := isConnecting h;
  inputAudioContextRef := inputAudioContextRef h;
  outputAudioContextRef := outputAudioContextRef h;
  inputAnalyserRef := inputAnalyserRef h;
  outputAnalyserRef := outputAnalyserRef h;
  scriptProcessorRef := scriptProcessorRef h;
  mediaStreamRef := mediaStreamRef h;
  sessionRef := sessionRef h;
  nextStartTimeRef := nextStartTimeRef h;
  audioSourcesRef := v;
  currentInputTranscription := currentInputTranscription h;
  currentOutputTranscription := currentOutputTranscription h;
  heap := heap h
|}.

Definition set_currentInputTranscription (v : string) (h : Hook) : Hook := {|
  isConnected := isConnected h; isConnecting := isConnecting h;
  inputAudioContextRef := inputAudioContextRef h;
  outputAudioContextRef := outputAudioContextRef h;
  inputAnalyserRef := inputAnalyserRef h;
  outputAnalyserRef := outputAnalyserRef h;
  scriptProcessorRef := scriptProcessorRef h;
  mediaStreamRef := mediaStreamRef h;
  sessionRef := sessionRef h;
  nextStartTimeRef := nextStartTimeRef h;
  audioSourcesRef := audioSourcesRef h;
  currentInputTranscription := v;
  currentOutputTranscription := currentOutputTranscription h;
  heap := heap h
|}.

Definition set_currentOutputTranscription (v : string) (h : Hook) : Hook := {|
  isConnected := isConnected h; isConnecting := isConnecting h;
  inputAudioContextRef := inputAudioContextRef h;
  outputAudioContextRef := outputAudioContextRef h;
  inputAnalyserRef := inputAnalyserRef h;
  outputAnalyserRef := outputAnalyserRef h;
  scriptProcessorRef := scriptProcessorRef h;
  mediaStreamRef := mediaStreamRef h;
  sessionRef := sessionRef h;
  nextStartTimeRef := nextStartTimeRef h;
  audioSourcesRef := audioSourcesRef h;
  currentInputTranscription := currentInputTranscription h;
  currentOutputTranscription := v;
  heap := heap h
|}.

Definition set_heap (v : Handle) (h : Hook) : Hook := {|
  isConnected := isConnected h; isConnecting := isConnecting h;
  inputAudioContextRef := inputAudioContextRef h;
  outputAudioContextRef := outputAudioContextRef h;
  inputAnalyserRef := inputAnalyserRef h;
  outputAnalyserRef := outputAnalyserRef h;
  scriptProcessorRef := scriptProcessorRef h;
  mediaStreamRef := mediaStreamRef h;
  sessionRef := sessionRef h;
  nextStartTimeRef := nextStartTimeRef h;
  audioSourcesRef := audioSourcesRef h;
  currentInputTranscription := currentInputTranscription h;
  currentOutputTranscription := currentOutputTranscription h;
  heap := v
|}.

Definition set_isConnected (v : bool) (h : Hook) : Hook := {|
  isConnected := v;
  isConnecting := isConnecting h;
  inputAudioContextRef := inputAudioContextRef h;
  outputAudioContextRef := outputAudioContextRef h;
  inputAnalyserRef := inputAnalyserRef h;
  outputAnalyserRef := outputAnalyserRef h;
  scriptProcessorRef := scriptProcessorRef h;
  mediaStreamRef := mediaStreamRef h;
  sessionRef := sessionRef h;
  nextStartTimeRef := nextStartTimeRef h;
  audioSourcesRef := audioSourcesRef h;
  currentInputTranscription := currentInputTranscription h;
  currentOutputTranscription := currentOutputTranscription h;
  heap := heap h
|}.

Definition set_isConnecting (v : bool) (h : Hook) : Hook := {|
  isConnected := isConnected h;
  isConnecting := v;
  inputAudioContextRef := inputAudioContextRef h;
  outputAudioContextRef := outputAudioContextRef h;
  inputAnalyserRef := inputAnalyserRef h;
  outputAnalyserRef := outputAnalyserRef h;
  scriptProcessorRef := scriptProcessorRef h;
  mediaStreamRef := mediaStreamRef h;
  sessionRef := sessionRef h;
  nextStartTimeRef := nextStartTimeRef h;
  audioSourcesRef := audioSourcesRef h;
  currentInputTranscription := currentInputTranscription h;
  currentOutputTranscription := currentOutputTranscription h;
  heap := heap h
|}.

Definition set_inputAudioContextRef (v : option Handle) (h : Hook) : Hook := {|
  isConnected := isConnected h;
  isConnecting := isConnecting h;
  inputAudioContextRef := v;
  outputAudioContextRef := outputAudioContextRef h;
  inputAnalyserRef := inputAnalyserRef h;
  outputAnalyserRef := outputAnalyserRef h;
  scriptProcessorRef := scriptProcessorRef h;
  mediaStreamRef := mediaStreamRef h;
  sessionRef := sessionRef h;
  nextStartTimeRef := nextStartTimeRef h;
  audioSourcesRef := audioSourcesRef h;
  currentInputTranscription := currentInputTranscription h;
  currentOutputTranscription := currentOutputTranscription h;
  heap := heap h
|}.

Definition set_outputAudioContextRef (v : option Handle) (h : Hook) : Hook := {|
  isConnected := isConnected h;
  isConnecting := isConnecting h;
  inputAudioContextRef := inputAudioContextRef h;
  outputAudioContextRef := v;
  inputAnalyserRef := inputAnalyserRef h;
  outputAnalyserRef := outputAnalyserRef h;
  scriptProcessorRef := scriptProcessorRef h;
  mediaStreamRef := mediaStreamRef h;
  sessionRef := sessionRef h;
  nextStartTimeRef := nextStartTimeRef h;
  audioSourcesRef := audioSourcesRef h;
  currentInputTranscription := currentInputTranscription h;
  currentOutputTranscription := currentOutputTranscription h;
  heap := heap h
|}.

Definition set_inputAnalyserRef (v : option Handle) (h : Hook) : Hook := {|
  isConnected := isConnected h;
  isConnecting := isConnecting h;
  inputAudioContextRef := inputAudioContextRef h;
  outputAudioContextRef := outputAudioContextRef h;
  inputAnalyserRef := v;
  outputAnalyserRef := outputAnalyserRef h;
  scriptProcessorRef := scriptProcessorRef h;
  mediaStreamRef := mediaStreamRef h;
  sessionRef := sessionRef h;
  nextStartTimeRef := nextStartTimeRef h;
  audioSourcesRef := audioSourcesRef h;
  currentInputTranscription := currentInputTranscription h;
  currentOutputTranscription := currentOutputTranscription h;
  heap := heap h
|}.

Definition set_outputAnalyserRef (v : option Handle) (h : Hook) : Hook := {|
  isConnected := isConnected h;
  isConnecting := isConnecting h;
  inputAudioContextRef := inputAudioContextRef h;
  outputAudioContextRef := outputAudioContextRef h;
  inputAnalyserRef := inputAnalyserRef h;
  outputAnalyserRef := v;
  scriptProcessorRef := scriptProcessorRef h;
  mediaStreamRef := mediaStreamRef h;
  sessionRef := sessionRef h;
  nextStartTimeRef := nextStartTimeRef h;
  audioSourcesRef := audioSourcesRef h;
  currentInputTranscription := currentInputTranscription h;
  currentOutputTranscription := currentOutputTranscription h;
  heap := heap h
|}.

Definition set_scriptProcessorRef (v : option Handle) (h : Hook) : Hook := {|
  isConnected := isConnected h;
  isConnecting := isConnecting h;
  inputAudioContextRef := inputAudioContextRef h;
  outputAudioContextRef := outputAudioContextRef h;
  inputAnalyserRef := inputAnalyserRef h;
  outputAnalyserRef := outputAnalyserRef h;
  scriptProcessorRef := v;
  mediaStreamRef := mediaStreamRef h;
  sessionRef := sessionRef h;
  nextStartTimeRef := nextStartTimeRef h;
  audioSourcesRef := audioSourcesRef h;
  currentInputTranscription := currentInputTranscription h;
  currentOutputTranscription := currentOutputTranscription h;
  heap := heap h
|}.

Definition set_mediaStreamRef (v : option MediaStream) (h : Hook) : Hook := {|
  isConnected := isConnected h;
  isConnecting := isConnecting h;
  inputAudioContextRef := inputAudioContextRef h;
  outputAudioContextRef := outputAudioContextRef h;
  inputAnalyserRef := inputAnalyserRef h;
  outputAnalyserRef := outputAnalyserRef h;
  scriptProcessorRef := scriptProcessorRef h;
  mediaStreamRef := v;
  sessionRef := sessionRef h;
  nextStartTimeRef := nextStartTimeRef h;
  audioSourcesRef := audioSourcesRef h;
  currentInputTranscription := currentInputTranscription h;
  currentOutputTranscription := currentOutputTranscription h;
  heap := heap h
|}.

Definition set_sessionRef (v : option Handle) (h : Hook) : Hook := {|
  isConnected := isConnected h;
  isConnecting := isConnecting h;
  inputAudioContextRef := inputAudioContextRef h;
  outputAudioContextRef := outputAudioContextRef h;
  inputAnalyserRef := inputAnalyserRef h;
  outputAnalyserRef := outputAnalyserRef h;
  scriptProcessorRef := scriptProcessorRef h;
  mediaStreamRef := mediaStreamRef h;
  sessionRef := v;
  nextStartTimeRef := nextStartTimeRef h;
  audioSourcesRef := audioSourcesRef h;
  currentInputTranscription := currentInputTranscription h;
  currentOutputTranscription := currentOutputTranscription h;
  heap := heap h
|}.

(** What a render of the hook shows of the two flags.  [connect] is made
    by [useCallback] with both flags among its dependencies and reads them
    from its closure: the values of the render that made the function, not
    the state at the time of the call. *)
Record Render := {
  seenConnected : bool;
  seenConnecting : bool
}.

Definition render (h : Hook) : Render := {|
  seenConnected := isConnected h;
  seenConnecting := isConnecting h
|}.

(** ** Computations of a callback

    A callback maps the hook to the hook it leaves, the calls it made and the
    way it completed.  A thrown exception (or a rejected [await]) stops the
    callback where it stands: the state and the calls made so far stay. *)

Inductive Completion (A : Type) :=
| Normal (a : A)
| Throw (e : string).
Arguments Normal {A} a.
Arguments Throw {A} e.

Record Outcome (A : Type) := {
  final : Hook;
  calls : list Effect;
  completion : Completion A
}.
Arguments final {A} o.
Arguments calls {A} o.
Arguments completion {A} o.

Definition Run (A : Type) := Hook -> Outcome A.

Definition ret {A} (a : A) : Run A :=
  fun h => {| final := h; calls := []; completion := Normal a |}.

Definition throw {A} (e : string) : Run A :=
  fun h => {| final := h; calls := []; completion := Throw e |}.

Definition bind {A B} (m : Run A) (k : A -> Run B) : Run B :=
  fun h =>
    match m h with
    | {| final := h1; calls := l1; completion := Normal a |} =>
        match k a h1 with
        | {| final := h2; calls := l2; completion := c |} =>
            {| final := h2; calls := l1 ++ l2; completion := c |}
        end
    | {| final := h1; calls := l1; completion := Throw e |} =>
        {| final := h1; calls := l1; completion := Throw e |}
    end.

Definition get : Run Hook :=
  fun h => {| final := h; calls := []; completion := Normal h |}.

Definition modify (f : Hook -> Hook) : Run unit :=
  fun h => {| final := f h; calls := []; completion := Normal tt |}.

Definition call (e : Effect) : Run unit :=
  fun h => {| final := h; calls := [e]; completion := Normal tt |}.

(** [try { m } catch (e) { handler e }] *)
Definition tryCatch {A} (m : Run A) (handler : string -> Run A) : Run A :=
  fun h =>
    match m h with
    | {| final := h1; calls := l1; completion := Normal a |} =>
        {| final := h1; calls := l1; completion := Normal a |}
    | {| final := h1; calls := l1; completion := Throw e |} =>
        match handler e h1 with
        | {| final := h2; calls := l2; completion := c |} =>
            {| final := h2; calls := l1 ++ l2; completion := c |}
        end
    end.

(** The value of a helper that may throw. *)
Definition orThrow {A} (e : string) (o : option A) : Run A :=
  match o with
  | Some a => ret a
  | None => throw e
  end.

Declare Scope run_scope.
Delimit Scope run_scope with run.
Notation "x <- m ;; k" := (bind m (fun x => k))
  (at level 61, m at next level, right associativity) : run_scope.
Notation "m ;; k" := (bind m (fun _ => k))
  (at level 61, right associativity) : run_scope.
Local Open Scope run_scope.

(** ** JavaScript values *)

(** A string in a condition: the empty string is falsy. *)
Definition truthy (s : string) : bool :=
  match s with
  | EmptyString => false
  | String _ _ => true
  end.

(** [s += t] where [t] may be [undefined]. *)
Definition concat (s : string) (t : option string) : string :=
  match t with
  | Some x => s ++ x
  | None => s ++ "undefined"
  end.

(** [n.toString()] of an integer. *)
Definition toString (n : Z) : string := NilZero.string_of_int (Z.to_int n).

(** [Set.prototype.add], [delete] and iteration (in insertion order), on
    source nodes compared by identity. *)
Definition sameNode (a b : AudioBufferSourceNode) : bool :=
  Nat.eqb (source_id a) (source_id b).

Definition setAdd (x : AudioBufferSourceNode) (s : list AudioBufferSourceNode) :=
  if existsb (sameNode x) s then s else s ++ [x].

Definition setDelete (x : AudioBufferSourceNode) (s : list AudioBufferSourceNode) :=
  filter (fun y => negb (sameNode x y)) s.

(** ** What the platform answers during a callback *)

(** Read while an inbound message is handled: [ctx.currentTime] of the
    output context, [Date.now()] (also the value of [new Date()]), and
    whether [stop()] on a given source throws. *)
Record Reading := {
  currentTime : Z;
  dateNow : Z;
  stopThrows : Handle -> bool
}.

(** Read by [connect]: [process.env.API_KEY] and the settlement of
    [getUserMedia], rejected with an [Error] of the given message or
    fulfilled with a stream. *)
Record Setup := {
  API_KEY : option string;
  getUserMedia : string + MediaStream
}.

(** How the promise of [ai.live.connect] settles: fulfilled with a session
    object, which may lack a [close] method and whose [close] may throw, or
    rejected. *)
Inductive Settlement :=
| Fulfilled (hasClose closeThrows : bool)
| Rejected (reason : string).

(** ** The callbacks of the hook *)

Section UseLiveSession.

(** The helpers imported from [../utils/audioUtils], whose source is not
    part of the hook: each either returns or throws ([None]). *)
Variable base64ToBytes : string -> option (list Byte.byte).
Variable decodeAudioData : list Byte.byte -> Z -> Z -> option AudioBuffer.

(** [ref.current?.method()] and [array.forEach] *)
Definition whenSet {A} (ref : option A) (f : A -> Run unit) : Run unit :=
  match ref with
  | Some a => f a
  | None => ret tt
  end.

Fixpoint forEach {A} (f : A -> Run unit) (l : list A) : Run unit :=
  match l with
  | [] => ret tt
  | a :: l' => f a ;; forEach f l'
  end.

(** A fresh platform object. *)
Definition allocate : Run Handle :=
  h <- get ;;
  modify (set_heap (S (heap h))) ;;
  ret (heap h).

(** [message.serverContent?.modelTurn?.parts[0]?.inlineData?.data]:
    indexing [parts] when the turn has none is a [TypeError]. *)
Definition inlineAudio (message : LiveServerMessage) : Run (option string) :=
  match serverContent message with
  | None => ret None
  | Some sc =>
      match modelTurn sc with
      | None => ret None
      | Some turn =>
          match parts turn with
          | None => throw "TypeError"
          | Some [] => ret None
          | Some (p :: _) =>
              match inlineData p with
              | None => ret None
              | Some b => ret (data b)
              end
          end
      end
  end.

(** Lines 100-107, the audio block up to its [await]: when the block is
    entered, the output context it read and the settlement of
    [decodeAudioData] ([None] when it rejects). *)
Definition audioUntilDecode (env : Reading) (message : LiveServerMessage)
    : Run (option (Handle * option AudioBuffer)) :=
  base64Audio <- inlineAudio message ;;
  h <- get ;;
  match base64Audio, outputAudioContextRef h with
  | Some b64, Some ctx =>
      if truthy b64 then
        modify (set_nextStartTimeRef (Z.max (nextStartTimeRef h) (currentTime env))) ;;
        audioBytes <- orThrow "base64ToBytes" (base64ToBytes b64) ;;
        ret (Some (ctx, decodeAudioData audioBytes 24000 1))
      else ret None
  | _, _ => ret None
  end.

(** Lines 107-126, the audio block from its [await] on: the references are
    read again, as they are when the handler resumes. *)
Definition audioAfterDecode (ctx : Handle) (settled : option AudioBuffer) : Run unit :=
  audioBuffer <- orThrow "decodeAudioData" settled ;;
  node <- allocate ;;
  call (ECreateNode ctx (BufferSource node)) ;;
  let source := {| source_id := node; buffer := audioBuffer |} in
  h1 <- get ;;
  match outputAnalyserRef h1 with
  | Some analyser =>
      call (EConnect (BufferSource node) (Analyser analyser)) ;;
      call (EConnect (Analyser analyser) (Destination ctx))
  | None => call (EConnect (BufferSource node) (Destination ctx))
  end ;;
  call (EStart source (nextStartTimeRef h1)) ;;
  modify (fun h2 => set_nextStartTimeRef (nextStartTimeRef h2 + duration audioBuffer) h2) ;;
  modify (fun h2 => set_audioSourcesRef (setAdd source (audioSourcesRef h2)) h2).

(** Lines 100-127: the audio block of a handler that nothing overlaps, which
    resumes in the state its first half left. *)
Definition handleAudio (env : Reading) (message : LiveServerMessage) : Run unit :=
  waiting <- audioUntilDecode env message ;;
  match waiting with
  | Some (ctx, settled) => audioAfterDecode ctx settled
  | None => ret tt
  end.

(** The ['ended'] listener registered on each source. *)
Definition onended (source : AudioBufferSourceNode) : Run unit :=
  modify (fun h => set_audioSourcesRef (setDelete source (audioSourcesRef h)) h).

(** [source.stop()], which the platform may refuse. *)
Definition stop (env : Reading) (source : AudioBufferSourceNode) : Run unit :=
  call (EStop (source_id source)) ;;
  if stopThrows env (source_id source) then throw "InvalidStateError" else ret tt.

Definition isInterrupted (message : LiveServerMessage) : bool :=
  match serverContent message with
  | Some sc => interrupted sc
  | None => false
  end.

(** Lines 129-137: handle interruption. *)
Definition handleInterruption (env : Reading) (message : LiveServerMessage) : Run unit :=
  if isInterrupted message then
    h <- get ;;
    forEach (fun source => tryCatch (stop env source) (fun _ => ret tt))
            (audioSourcesRef h) ;;
    modify (set_audioSourcesRef []) ;;
    modify (set_nextStartTimeRef 0)
  else ret tt.

Definition onMessage (suffix : string) (r : Role) (t : string) (partial : bool)
    (env : Reading) : Run unit :=
  call (EOnMessage {| id := toString (dateNow env) ++ suffix;
                      role := r;
                      text := t;
                      timestamp := dateNow env;
                      isPartial := partial |}).

(** Lines 139-158: handle transcription. *)
Definition handleTranscription (env : Reading) (message : LiveServerMessage) : Run unit :=
  match serverContent message with
  | None => ret tt
  | Some sc =>
      match outputTranscription sc, inputTranscription sc with
      | Some tr, _ =>
          modify (fun h => set_currentOutputTranscription
                             (concat (currentOutputTranscription h) (fragment tr)) h) ;;
          h <- get ;;
          onMessage "model" model (currentOutputTranscription h) true env
      | None, Some tr =>
          modify (fun h => set_currentInputTranscription
                             (concat (currentInputTranscription h) (fragment tr)) h) ;;
          h <- get ;;
          onMessage "user" user (currentInputTranscription h) true env
      | None, None => ret tt
      end
  end.

Definition isTurnComplete (message : LiveServerMessage) : bool :=
  match serverContent message with
  | Some sc => turnComplete sc
  | None => false
  end.

(** Lines 160-183: turn complete, finalize transcripts. *)
Definition handleTurnComplete (env : Reading) (message : LiveServerMessage) : Run unit :=
  if isTurnComplete message then
    h <- get ;;
    (if truthy (currentInputTranscription h) then
       onMessage "user_final" user (currentInputTranscription h) false env ;;
       modify (set_currentInputTranscription "")
     else ret tt) ;;
    h' <- get ;;
    (if truthy (currentOutputTranscription h') then
       onMessage "model_final" model (currentOutputTranscription h') false env ;;
       modify (set_currentOutputTranscription "")
     else ret tt)
  else ret tt.

(** Lines 99-184, for a handler that nothing overlaps. *)
Definition onmessage (env : Reading) (message : LiveServerMessage) : Run unit :=
  handleAudio env message ;;
  handleInterruption env message ;;
  handleTranscription env message ;;
  handleTurnComplete env message.

(** Lines 246-248: the callback that [cleanup] chains on the channel's
    promise, with the [catch] behind it.  It runs when the promise settles. *)
Definition closeWhenSettled (session : Handle) (s : Settlement) : Run unit :=
  tryCatch
    (match s with
     | Fulfilled hasClose closeThrows =>
         if hasClose then
           call (ESessionClose session) ;;
           if closeThrows then throw "close" else ret tt
         else ret tt
     | Rejected reason => throw reason
     end)
    (fun _ => ret tt).

(** Lines 220-253.  The session is not closed here: [then] only chains
    [closeWhenSettled] on its promise. *)
Definition cleanup : Run unit :=
  modify (set_isConnected false) ;;
  modify (set_isConnecting false) ;;
  h <- get ;;
  whenSet (mediaStreamRef h)
          (fun stream => forEach (fun track => call (ETrackStop track)) (getTracks stream)) ;;
  whenSet (scriptProcessorRef h) (fun n => call (EDisconnect (ScriptProcessor n))) ;;
  whenSet (inputAnalyserRef h) (fun n => call (EDisconnect (Analyser n))) ;;
  whenSet (outputAnalyserRef h) (fun n => call (EDisconnect (Analyser n))) ;;
  whenSet (inputAudioContextRef h) (fun c => call (EClose c)) ;;
  whenSet (outputAudioContextRef h) (fun c => call (EClose c)) ;;
  modify (set_mediaStreamRef None) ;;
  modify (set_scriptProcessorRef None) ;;
  modify (set_inputAudioContextRef None) ;;
  modify (set_outputAudioContextRef None) ;;
  modify (set_inputAnalyserRef None) ;;
  modify (set_outputAnalyserRef None) ;;
  whenSet (sessionRef h) (fun session => call (ESessionThen session)) ;;
  modify (set_sessionRef None) ;;
  call EOnDisconnect.

(** Lines 255-257. *)
Definition disconnect : Run unit := cleanup.

(** Lines 185-193: the channel's [onclose] and [onerror]. *)
Definition onclose : Run unit := cleanup.

Definition onerror : Run unit :=
  call (EOnError "Connection error") ;;
  cleanup.

(** Lines 71-98: the channel's [onopen], closed over the input context and
    its analyser of the [connect] call that opened the channel.  The
    [onaudioprocess] callback it installs on the processor is the capture
    pipeline, which is left out. *)
Definition onopen (inputCtx inAnalyser : Handle) : Run unit :=
  modify (set_isConnected true) ;;
  modify (set_isConnecting false) ;;
  call EOnConnect ;;
  source <- allocate ;;
  call (ECreateNode inputCtx (StreamSource source)) ;;
  call (EConnect (StreamSource source) (Analyser inAnalyser)) ;;
  processor <- allocate ;;
  call (ECreateNode inputCtx (ScriptProcessor processor)) ;;
  modify (set_scriptProcessorRef (Some processor)) ;;
  call (EConnect (StreamSource source) (ScriptProcessor processor)) ;;
  call (EConnect (ScriptProcessor processor) (Destination inputCtx)).

Definition newAudioContext (sampleRate : Z) : Run Handle :=
  ctx <- allocate ;;
  call (ENewAudioContext ctx sampleRate) ;;
  ret ctx.

Definition createAnalyser (ctx : Handle) : Run Handle :=
  node <- allocate ;;
  call (ECreateAnalyser ctx node) ;;
  ret node.

(** Lines 34-65, [connect] up to its [await]: whether it now waits for the
    device.  The guard reads the flags of the render that made the callback. *)
Definition connectUntilDevice (seen : Render) (env : Setup) : Run bool :=
  if seenConnected seen || seenConnecting seen then ret false
  else
    modify (set_isConnecting true) ;;
    tryCatch
      (match API_KEY env with
       | Some apiKey => if truthy apiKey then ret tt else throw "API Key not found"
       | None => throw "API Key not found"
       end ;;
       inputCtx <- newAudioContext 16000 ;;
       outputCtx <- newAudioContext 24000 ;;
       modify (set_inputAudioContextRef (Some inputCtx)) ;;
       modify (set_outputAudioContextRef (Some outputCtx)) ;;
       inAnalyser <- createAnalyser inputCtx ;;
       modify (set_inputAnalyserRef (Some inAnalyser)) ;;
       outAnalyser <- createAnalyser outputCtx ;;
       modify (set_outputAnalyserRef (Some outAnalyser)) ;;
       call EGetUserMedia ;;
       ret true)
      (fun err =>
         modify (set_isConnecting false) ;;
         call (EOnError err) ;;
         ret false).

(** Lines 65-217, [connect] from its [await] on, still inside the [try]:
    the device request has settled. *)
Definition connectAfterDevice (answer : string + MediaStream) : Run unit :=
  tryCatch
    (stream <- match answer with
               | inr stream => ret stream
               | inl err => throw err
               end ;;
     modify (set_mediaStreamRef (Some stream)) ;;
     sessionPromise <- allocate ;;
     call (ELiveConnect sessionPromise) ;;
     modify (set_sessionRef (Some sessionPromise)))
    (fun err =>
       modify (set_isConnecting false) ;;
       call (EOnError err)).

(** Lines 34-218: a [connect] that nothing overlaps while it waits for the
    device. *)
Definition connect (seen : Render) (env : Setup) : Run unit :=
  waiting <- connectUntilDevice seen env ;;
  if waiting then connectAfterDevice (getUserMedia env) else ret tt.

End UseLiveSession.

(** ** Inbound events and their delivery *)

(** The kinds of inbound event the channel delivers, as the messages that
    carry exactly one of them. *)
Definition emptyContent : ServerContent := {|
  modelTurn := None;
  interrupted := false;
  outputTranscription := None;
  inputTranscription := None;
  turnComplete := false
|}.

Definition audioPayloadEvent (payload : string) : LiveServerMessage := {|
  serverContent := Some {|
    modelTurn := Some {| parts := Some [ {| inlineData := Some {| data := Some payload |} |} ] |};
    interrupted := false;
    outputTranscription := None;
    inputTranscription := None;
    turnComplete := false |}
|}.

Definition interruptionEvent : LiveServerMessage := {|
  serverContent := Some {|
    modelTurn := None;
    interrupted := true;
    outputTranscription := None;
    inputTranscription := None;
    turnComplete := false |}
|}.

Definition fragmentEvent (r : Role) (t : string) : LiveServerMessage := {|
  serverContent := Some {|
    modelTurn := None;
    interrupted := false;
    outputTranscription :=
      match r with model => Some {| fragment := Some t |} | user => None end;
    inputTranscription :=
      match r with user => Some {| fragment := Some t |} | model => None end;
    turnComplete := false |}
|}.

Definition turnCompleteEvent : LiveServerMessage := {|
  serverContent := Some {|
    modelTurn := None;
    interrupted := false;
    outputTranscription := None;
    inputTranscription := None;
    turnComplete := true |}
|}.

(** What reaches the hook while a session is active: an inbound message on
    the channel, or the end of a source's playback. *)
Inductive Occurrence :=
| Inbound (env : Reading) (message : LiveServerMessage)
| Ended (source : AudioBufferSourceNode).

Section Delivery.

Variable base64ToBytes : string -> option (list Byte.byte).
Variable decodeAudioData : list Byte.byte -> Z -> Z -> option AudioBuffer.

Definition occur (o : Occurrence) : Run unit :=
  match o with
  | Inbound env message => onmessage base64ToBytes decodeAudioData env message
  | Ended source => onended source
  end.

(** The channel calls [onmessage] once per inbound message, in order, and
    the platform calls the ['ended'] listener of a source whose playback is
    over; the promise an [async] handler returns is dropped, so a handler
    that throws does not stop the next delivery.  Here each handler has
    resumed and ended before the next occurrence is handled. *)
Fixpoint deliver (events : list Occurrence) (h : Hook) : Hook * list Effect :=
  match events with
  | [] => (h, [])
  | o :: rest =>
      let r := occur o h in
      let '(h', l) := deliver rest (final r) in
      (h', calls r ++ l)
  end.

End Delivery.

(** What a trace shows of the playback schedule, of the transcript and of
    the error hook. *)
Fixpoint scheduled (l : list Effect) : list (Z * Z) :=
  match l with
  | [] => []
  | EStart source when :: l' => (when, duration (buffer source)) :: scheduled l'
  | _ :: l' => scheduled l'
  end.

Fixpoint stopped (l : list Effect) : list Handle :=
  match l with
  | [] => []
  | EStop source :: l' => source :: stopped l'
  | _ :: l' => stopped l'
  end.

Fixpoint emitted (l : list Effect) : list Message :=
  match l with
  | [] => []
  | EOnMessage m :: l' => m :: emitted l'
  | _ :: l' => emitted l'
  end.

Fixpoint reported (l : list Effect) : list string :=
  match l with
  | [] => []
  | EOnError msg :: l' => msg :: reported l'
  | _ :: l' => reported l'
  end.

(** ** Stand-ins for the imported helpers

    Concrete runs need concrete helpers.  [sampleBase64ToBytes] decodes
    standard padded base64 and throws on anything else; [samplePcmDecoder]
    reads mono 16-bit PCM, one frame per two bytes, and throws on an odd
    number of bytes. *)

Definition sextet (c : ascii) : option Z :=
  let n := Z.of_nat (nat_of_ascii c) in
  if ((65 <=? n) && (n <=? 90))%Z then Some (n - 65)
  else if ((97 <=? n) && (n <=? 122))%Z then Some (n - 71)
  else if ((48 <=? n) && (n <=? 57))%Z then Some (n + 4)
  else if (n =? 43)%Z then Some 62
  else if (n =? 47)%Z then Some 63
  else None.

Definition octet (n : Z) : Byte.byte :=
  byte_of_ascii (ascii_of_N (Z.to_N (n mod 256))).

Definition isPad (c : ascii) : bool := Ascii.eqb c "="%char.

Fixpoint sampleBase64ToBytes (s : string) : option (list Byte.byte) :=
  match s with
  | EmptyString => Some []
  | String a (String b (String c (String d rest))) =>
      match sextet a, sextet b with
      | Some x, Some y =>
          let b1 := octet (x * 4 + y / 16) in
          if isPad c && isPad d && negb (truthy rest) then Some [b1]
          else
            match sextet c with
            | Some z =>
                let b2 := octet (y * 16 + z / 4) in
                if isPad d && negb (truthy rest) then Some [b1; b2]
                else
                  match sextet d, sampleBase64ToBytes rest with
                  | Some w, Some more => Some (b1 :: b2 :: octet (z * 64 + w) :: more)
                  | _, _ => None
                  end
            | None => None
            end
      | _, _ => None
      end
  | _ => None
  end.

Definition samplePcmDecoder (bytes : list Byte.byte) (sampleRate numChannels : Z)
    : option AudioBuffer :=
  let n := Z.of_nat (List.length bytes) in
  if (n mod 2 =? 0)%Z then Some {| duration := n / 2 |} else None.

(** A session for the concrete runs: [connect] with a credential and a
    one-track device stream, then the channel's [onopen]. *)
Definition sampleSetup : Setup := {|
  API_KEY := Some "key";
  getUserMedia := inr {| getTracks := [100%nat] |}
|}.

Definition connectingHook : Hook :=
  final (connect (render initialHook) sampleSetup initialHook).

Definition activeHook : Hook := final (onopen 0%nat 2%nat connectingHook).

Definition reading (now ms : Z) : Reading := {|
  currentTime := now;
  dateNow := ms;
  stopThrows := fun source => Nat.even source
|}.

(** ** Vocabulary of the statements *)

Definition transcript (r : Role) (h : Hook) : string :=
  match r with
  | user => currentInputTranscription h
  | model => currentOutputTranscription h
  end.

Definition roleTag (r : Role) : string :=
  match r with
  | user => "user"
  | model => "model"
  end.

(** What the transcript list shows of a message. *)
Definition shown (m : Message) : Role * string * bool := (role m, text m, isPartial m).

Definition partialMessage (r : Role) (t : string) (env : Reading) : Message := {|
  id := toString (dateNow env) ++ roleTag r;
  role := r;
  text := t;
  timestamp := dateNow env;
  isPartial := true
|}.

(** The final message a turn boundary owes a role: one if the role's
    buffer holds text, none otherwise. *)
Definition finalMessages (r : Role) (env : Reading) (h : Hook) : list Message :=
  if truthy (transcript r h) then
    [ {| id := toString (dateNow env) ++ roleTag r ++ "_final";
         role := r;
         text := transcript r h;
         timestamp := dateNow env;
         isPartial := false |} ]
  else [].

(** An occurrence that is not an interruption. *)
Definition quiet (o : Occurrence) : bool :=
  match o with
  | Inbound _ message => negb (isInterrupted message)
  | Ended _ => true
  end.

(** A schedule [(start, duration)] whose chunks do not overlap and do not
    start before [from]. *)
Fixpoint gapless (from : Z) (l : list (Z * Z)) : Prop :=
  match l with
  | [] => True
  | (start, d) :: l' => from <= start /\ gapless (start + d) l'
  end.

Definition withTranscripts (ci co : string) (h : Hook) : Hook :=
  set_currentInputTranscription ci (set_currentOutputTranscription co h).

(** An outcome that touched the transcript buffers only and called
    [onMessage] only. *)
Definition transcriptOnly (h : Hook) (r : Outcome unit) : Prop :=
  exists ci co msgs,
    r = {| final := withTranscripts ci co h;
           calls := map EOnMessage msgs;
           completion := Normal tt |}.

(** What follows the audio part of [onmessage]. *)
Definition afterAudio (env : Reading) (message : LiveServerMessage) : Run unit :=
  handleInterruption env message ;;
  handleTranscription env message ;;
  handleTurnComplete env message.

(** Two hooks that the transcript cannot tell apart. *)
Definition agree (h1 h2 : Hook) : Prop :=
  currentInputTranscription h1 = currentInputTranscription h2
  /\ currentOutputTranscription h1 = currentOutputTranscription h2
  /\ outputAudioContextRef h1 = outputAudioContextRef h2.

Definition alike {A} (r1 r2 : Outcome A) : Prop :=
  completion r1 = completion r2
  /\ emitted (calls r1) = emitted (calls r2)
  /\ agree (final r1) (final r2).

Section Chunks.

Variable base64ToBytes : string -> option (list Byte.byte).
Variable decodeAudioData : list Byte.byte -> Z -> Z -> option AudioBuffer.

(** The buffer an inbound payload decodes to, if it does. *)
Definition decoded (payload : string) : option AudioBuffer :=
  match base64ToBytes payload with
  | Some audioBytes => decodeAudioData audioBytes 24000 1
  | None => None
  end.

(** The hook after a chunk with the given buffer was scheduled. *)
Definition afterChunk (env : Reading) (b : AudioBuffer) (h : Hook) : Hook :=
  let start := Z.max (nextStartTimeRef h) (currentTime env) in
  set_audioSourcesRef
    (setAdd {| source_id := heap h; buffer := b |} (audioSourcesRef h))
    (set_nextStartTimeRef (start + duration b) (set_heap (S (heap h)) h)).

End Chunks.

(** Resources, and what [cleanup] calls on one it holds: a track is
    stopped, a node disconnected, a context closed; the channel is not closed
    but handed to [closeWhenSettled] by a [then] on its promise. *)
Inductive Resource :=
| Track (t : Handle)
| Node (n : AudioNode)
| Context (c : Handle)
| Channel (s : Handle).

Definition release (r : Resource) : Effect :=
  match r with
  | Track t => ETrackStop t
  | Node n => EDisconnect n
  | Context c => EClose c
  | Channel s => ESessionThen s
  end.

Definition ofRef {A} (ref : option A) (f : A -> Resource) : list Resource :=
  match ref with
  | Some a => [f a]
  | None => []
  end.

(** The resources the hook's references hold, in the order [cleanup]
    visits them. *)
Definition held (h : Hook) : list Resource :=
  match mediaStreamRef h with
  | Some stream => map Track (getTracks stream)
  | None => []
  end
  ++ ofRef (scriptProcessorRef h) (fun n => Node (ScriptProcessor n))
  ++ ofRef (inputAnalyserRef h) (fun n => Node (Analyser n))
  ++ ofRef (outputAnalyserRef h) (fun n => Node (Analyser n))
  ++ ofRef (inputAudioContextRef h) Context
  ++ ofRef (outputAudioContextRef h) Context
  ++ ofRef (sessionRef h) Channel.

(** The hook with its flags down and its references cleared. *)
Definition cleared (h : Hook) : Hook := {|
  isConnected := false; isConnecting := false;
  inputAudioContextRef := None; outputAudioContextRef := None;
  inputAnalyserRef := None; outputAnalyserRef := None;
  scriptProcessorRef := None; mediaStreamRef := None;
  sessionRef := None;
  nextStartTimeRef := nextStartTimeRef h;
  audioSourcesRef := audioSourcesRef h;
  currentInputTranscription := currentInputTranscription h;
  currentOutputTranscription := currentOutputTranscription h;
  heap := heap h
|}.

(** The session is Connecting or Active; and a render that shows it so. *)
Definition busy (h : Hook) : bool := isConnected h || isConnecting h.

Definition seenBusy (r : Render) : bool := seenConnected r || seenConnecting r.


(** What happens to a session over its life: [connect()] is called through
    the callback of some render and runs to its end, or runs up to its
    [await] and is resumed later by the device's answer; the channel opens;
    the session is torn down ([disconnect()], or the channel's close
    callback); the promise of a channel that [cleanup] let go settles. *)
Inductive Step :=
| Connect (seen : Render) (env : Setup)
| ConnectStart (seen : Render) (env : Setup)
| DeviceAnswer (answer : string + MediaStream)
| ChannelOpen (inputCtx inAnalyser : Handle)
| Teardown
| Settled (session : Handle) (s : Settlement).

(** One step of a session's life. *)
Definition step (s : Step) : Run unit :=
  match s with
  | Connect seen env => connect seen env
  | ConnectStart seen env => connectUntilDevice seen env ;; ret tt
  | DeviceAnswer answer => connectAfterDevice answer
  | ChannelOpen inputCtx inAnalyser => onopen inputCtx inAnalyser
  | Teardown => cleanup
  | Settled session s => closeWhenSettled session s
  end.

Fixpoint lifecycle (steps : list Step) (h : Hook) : Hook * list Effect :=
  match steps with
  | [] => (h, [])
  | s :: rest =>
      let r := step s h in
      let '(h', l) := lifecycle rest (final r) in
      (h', calls r ++ l)
  end.









(** Calls that release a resource, or hand it over to be released. *)
Definition isRelease (e : Effect) : bool :=
  match e with
  | ETrackStop _ | EDisconnect _ | EClose _ | ESessionThen _ | ESessionClose _ => true
  | _ => false
  end.

(** Calls that acquire an audio context, the input device or a channel. *)
Definition isAcquisition (e : Effect) : bool :=
  match e with
  | ENewAudioContext _ _ | EGetUserMedia | ELiveConnect _ => true
  | _ => false
  end.

(** ** The transport blob encoder *)

Module Encoder.

Record TransportBlob := {
  pcm : list Byte.byte;
  sampleRate : Z
}.

(** Modelled from the spec: the integer part of a sample scaled to the
    16-bit range, inside [createBlob] of [../utils/audioUtils] (absent from
    the sources). *)
Definition truncate (x : Q) : Z := Z.quot (Qnum x) (Z.pos (Qden x)).

(** Modelled from the spec: clamping to the range a signed 16-bit sample
    can represent, inside [createBlob]. *)
Definition clamp16 (n : Z) : Z := Z.max (-32768) (Z.min 32767 n).

(** Modelled from the spec: the conversion of one normalized sample inside
    [createBlob]: the sample is scaled to the 16-bit range, its fraction is
    dropped, and the result is clamped to the representable range. *)
Definition toPcm16 (x : Q) : Z := clamp16 (truncate (x * inject_Z 32768)%Q).

(** Modelled from the spec: the little-endian, two's complement bytes of a
    16-bit sample, as the wire format of [createBlob] has them. *)
Definition int16Bytes (n : Z) : list Byte.byte :=
  let u := n mod 65536 in
  [octet u; octet (u / 256)].

(** Modelled from the spec: [createBlob] of [../utils/audioUtils] (absent
    from the sources), up to the binary-safe text encoding of the bytes: the
    samples of the frame in their order, each as 16-bit PCM, tagged with the
    input sample rate. *)
Definition createBlob (data : list Q) : TransportBlob := {|
  pcm := flat_map (fun x => int16Bytes (toPcm16 x)) data;
  sampleRate := 16000
|}.

Definition byteValue (b : Byte.byte) : Z := Z.of_N (Byte.to_N b).

Definition int16Of (lo hi : Byte.byte) : Z :=
  let u := byteValue lo + 256 * byteValue hi in
  if 32768 <=? u then u - 65536 else u.

Fixpoint samplesOf (bytes : list Byte.byte) : list Z :=
  match bytes with
  | lo :: hi :: rest => int16Of lo hi :: samplesOf rest
  | _ => []
  end.

(** Modelled from the spec: the reference decoder of the round-trip
    property, which reads 16-bit PCM and divides by full scale. *)
Definition decodePcm16 (bytes : list Byte.byte) : list Q :=
  map (fun n => Qmake n 32768) (samplesOf bytes).

(** One step of the 16-bit grid. *)
Definition quantum : Q := Qmake 1 32768.

End Encoder.

(** ** Concrete inputs *)

(** Three chunks of 3, 1 and 2 frames; in between a transcript fragment, the
    end of the first chunk's playback and a payload that does not decode. *)
Definition sampleRun : list Occurrence :=
  [ Inbound (reading 5 1000) (audioPayloadEvent "AAAAAAAA");
    Inbound (reading 6 1001) (fragmentEvent model "ami");
    Inbound (reading 6 1002) (audioPayloadEvent "AAA=");
    Ended {| source_id := 7%nat; buffer := {| duration := 3 |} |};
    Inbound (reading 20 1003) (audioPayloadEvent "AA==");
    Inbound (reading 21 1004) (audioPayloadEvent "AAAAAA==") ].

(** The active session with two chunks scheduled and not yet played. *)
Definition playingHook : Hook :=
  fst (deliver sampleBase64ToBytes samplePcmDecoder
         [ Inbound (reading 5 1000) (audioPayloadEvent "AAAAAAAA");
           Inbound (reading 6 1001) (audioPayloadEvent "AAA=") ] activeHook).

Definition sampleFrame : list Q :=
  [ 0%Q; (1 # 2)%Q; (-(1))%Q; 1%Q; (1 # 3)%Q; (-1 # 3)%Q ].

(** ** More vocabulary: setup, messages, sources, contexts *)

(** [process.env.API_KEY] is set and not the empty string. *)
Definition hasKey (env : Setup) : bool :=
  match API_KEY env with
  | Some apiKey => truthy apiKey
  | None => false
  end.

(** A message with its model turn, or with its input transcription, taken
    away. *)
Definition withoutAudio (message : LiveServerMessage) : LiveServerMessage :=
  match serverContent message with
  | Some sc =>
      {| serverContent := Some {|
           modelTurn := None;
           interrupted := interrupted sc;
           outputTranscription := outputTranscription sc;
           inputTranscription := inputTranscription sc;
           turnComplete := turnComplete sc |} |}
  | None => message
  end.

Definition withoutInput (message : LiveServerMessage) : LiveServerMessage :=
  match serverContent message with
  | Some sc =>
      {| serverContent := Some {|
           modelTurn := modelTurn sc;
           interrupted := interrupted sc;
           outputTranscription := outputTranscription sc;
           inputTranscription := None;
           turnComplete := turnComplete sc |} |}
  | None => message
  end.

(** The model turn of a message has no [parts] array. *)
Definition lacksParts (message : LiveServerMessage) : bool :=
  match serverContent message with
  | Some sc =>
      match modelTurn sc with
      | Some turn =>
          match parts turn with
          | None => true
          | Some _ => false
          end
      | None => false
      end
  | None => false
  end.

(** A role's buffer after the given fragments, each with the reading at
    which it arrives, and the partial messages they give rise to. *)
Definition bufferAfter (acc : string) (frags : list (Reading * string)) : string :=
  fold_left (fun a f => (a ++ snd f)%string) frags acc.

Fixpoint partials (r : Role) (acc : string) (frags : list (Reading * string))
    : list Message :=
  match frags with
  | [] => []
  | (env, t) :: rest =>
      partialMessage r (acc ++ t)%string env :: partials r (acc ++ t)%string rest
  end.

Definition fragments (r : Role) (frags : list (Reading * string)) : list Occurrence :=
  map (fun f => Inbound (fst f) (fragmentEvent r (snd f))) frags.

(** A message that carries a fragment and closes the turn, and one that
    carries audio and signals interruption. *)
Definition closingFragmentEvent (r : Role) (t : string) : LiveServerMessage := {|
  serverContent := Some {|
    modelTurn := None;
    interrupted := false;
    outputTranscription :=
      match r with model => Some {| fragment := Some t |} | user => None end;
    inputTranscription :=
      match r with user => Some {| fragment := Some t |} | model => None end;
    turnComplete := true |}
|}.

Definition interruptedAudioEvent (payload : string) : LiveServerMessage := {|
  serverContent := Some {|
    modelTurn := Some {| parts := Some [ {| inlineData := Some {| data := Some payload |} |} ] |};
    interrupted := true;
    outputTranscription := None;
    inputTranscription := None;
    turnComplete := false |}
|}.

Definition other (r : Role) : Role :=
  match r with
  | user => model
  | model => user
  end.

(** The sources a trace started. *)
Fixpoint started (l : list Effect) : list Handle :=
  match l with
  | [] => []
  | EStart source _ :: l' => source_id source :: started l'
  | _ :: l' => started l'
  end.

(** The active source set holds each source once, and only sources the
    platform has already handed out. *)
Definition sourcesFresh (h : Hook) : Prop :=
  Forall (fun s => (source_id s < heap h)%nat) (audioSourcesRef h)
  /\ NoDup (map source_id (audioSourcesRef h)).

(** The audio contexts a trace leaves open: created and not yet closed. *)
Fixpoint openContexts (l : list Effect) (acc : list Handle) : list Handle :=
  match l with
  | [] => acc
  | ENewAudioContext c _ :: l' => openContexts l' (acc ++ [c])
  | EClose c :: l' => openContexts l' (filter (fun x => negb (Nat.eqb c x)) acc)
  | _ :: l' => openContexts l' acc
  end.

(** The contexts the hook refers to. *)
Definition contextsOf (h : Hook) : list Handle :=
  match inputAudioContextRef h with Some c => [c] | None => [] end
  ++ match outputAudioContextRef h with Some c => [c] | None => [] end.



(** The handle is none of the hook's contexts and was handed out before. *)
Definition forgotten (c : Handle) (h : Hook) : Prop :=
  ~ In c (contextsOf h) /\ (c < heap h)%nat.

(** ** The chat list of [src/App.tsx] *)

Definition sameRole (a b : Role) : bool :=
  match a, b with
  | user, user | model, model => true
  | _, _ => false
  end.

(** [updated[i] = x] on a copy, for an index inside the array. *)
Fixpoint setAt {A} (i : nat) (x : A) (l : list A) : list A :=
  match l, i with
  | [], _ => []
  | _ :: l', O => x :: l'
  | a :: l', S i' => a :: setAt i' x l'
  end.

(** Lines 12-41: the updater [handleMessage] passes to [setMessages].
    [prev[prev.length - 1]] of the empty list is [undefined]. *)
Definition handleMessage (prev : list Message) (newMessage : Message) : list Message :=
  match nth_error prev (List.length prev - 1) with
  | Some lastMsg =>
      if sameRole (role lastMsg) (role newMessage)
         && isPartial lastMsg && isPartial newMessage
      then setAt (List.length prev - 1) newMessage prev
      else if sameRole (role lastMsg) (role newMessage)
              && isPartial lastMsg && negb (isPartial newMessage)
      then setAt (List.length prev - 1) newMessage prev
      else prev ++ [newMessage]
  | None => prev ++ [newMessage]
  end.

(** The list after the hook's [onMessage] calls of a trace, each one
    through [handleMessage]. *)
Definition chat (prev : list Message) (l : list Effect) : list Message :=
  fold_left handleMessage (emitted l) prev.

(** The last message is a partial one of the given role. *)
Definition endsPartial (r : Role) (l : list Message) : bool :=
  match nth_error l (List.length l - 1) with
  | Some lastMsg => sameRole (role lastMsg) r && isPartial lastMsg
  | None => false
  end.

(** The hook as the interruption part of [onmessage] leaves it, and the
    stops that part makes. *)
Definition interruptedHook (m : LiveServerMessage) (h : Hook) : Hook :=
  if isInterrupted m then set_nextStartTimeRef 0 (set_audioSourcesRef [] h) else h.

Definition stops (m : LiveServerMessage) (h : Hook) : list Effect :=
  if isInterrupted m then map (fun s => EStop (source_id s)) (audioSourcesRef h) else [].

Definition ids (l : list AudioBufferSourceNode) : list Handle := map source_id l.

(** No source of the set is among the handles, which were all handed out. *)
Definition stoppedApart (h : Hook) (acc : list Handle) : Prop :=
  sourcesFresh h
  /\ Forall (fun x => (x < heap h)%nat) acc
  /\ NoDup acc
  /\ (forall x, In x (ids (audioSourcesRef h)) -> ~ In x acc).

Definition finalMessage (r : Role) (t : string) (env : Reading) : Message := {|
  id := toString (dateNow env) ++ roleTag r ++ "_final";
  role := r;
  text := t;
  timestamp := dateNow env;
  isPartial := false
|}.

(** Calls of the playback and transcript paths: creating, wiring, starting
    and stopping a buffer source, and [onMessage]. *)
Definition isPlayback (e : Effect) : bool :=
  match e with
  | ECreateNode _ (BufferSource _) | EConnect _ _ | EStart _ _ | EStop _
  | EOnMessage _ => true
  | _ => false
  end.

(** The flags and the resource references of the hook. *)
Definition lifecyclePart (h : Hook) :=
  (isConnected h, isConnecting h,
   (inputAudioContextRef h, outputAudioContextRef h,
    inputAnalyserRef h, outputAnalyserRef h),
   (scriptProcessorRef h, mediaStreamRef h, sessionRef h)).

(** What [connect] calls up to the device request, and the hook it leaves
    when the device is refused and when the channel is being opened. *)
Definition graphCalls (c : Handle) : list Effect :=
  [ ENewAudioContext c 16000; ENewAudioContext (S c) 24000;
    ECreateAnalyser c (S (S c)); ECreateAnalyser (S c) (S (S (S c)));
    EGetUserMedia ].

Definition refusedHook (h : Hook) : Hook := {|
  isConnected := isConnected h; isConnecting := false;
  inputAudioContextRef := Some (heap h);
  outputAudioContextRef := Some (S (heap h));
  inputAnalyserRef := Some (S (S (heap h)));
  outputAnalyserRef := Some (S (S (S (heap h))));
  scriptProcessorRef := scriptProcessorRef h;
  mediaStreamRef := mediaStreamRef h;
  sessionRef := sessionRef h;
  nextStartTimeRef := nextStartTimeRef h;
  audioSourcesRef := audioSourcesRef h;
  currentInputTranscription := currentInputTranscription h;
  currentOutputTranscription := currentOutputTranscription h;
  heap := S (S (S (S (heap h))))
|}.

Definition connectedHook (stream : MediaStream) (h : Hook) : Hook := {|
  isConnected := isConnected h; isConnecting := true;
  inputAudioContextRef := Some (heap h);
  outputAudioContextRef := Some (S (heap h));
  inputAnalyserRef := Some (S (S (heap h)));
  outputAnalyserRef := Some (S (S (S (heap h))));
  scriptProcessorRef := scriptProcessorRef h;
  mediaStreamRef := Some stream;
  sessionRef := Some (S (S (S (S (heap h)))));
  nextStartTimeRef := nextStartTimeRef h;
  audioSourcesRef := audioSourcesRef h;
  currentInputTranscription := currentInputTranscription h;
  currentOutputTranscription := currentOutputTranscription h;
  heap := S (S (S (S (S (heap h)))))
|}.

(** The hook while [connect] waits for the device, and after the device
    answered with a stream. *)
Definition waitingHook (h : Hook) : Hook := {|
  isConnected := isConnected h; isConnecting := true;
  inputAudioContextRef := Some (heap h);
  outputAudioContextRef := Some (S (heap h));
  inputAnalyserRef := Some (S (S (heap h)));
  outputAnalyserRef := Some (S (S (S (heap h))));
  scriptProcessorRef := scriptProcessorRef h;
  mediaStreamRef := mediaStreamRef h;
  sessionRef := sessionRef h;
  nextStartTimeRef := nextStartTimeRef h;
  audioSourcesRef := audioSourcesRef h;
  currentInputTranscription := currentInputTranscription h;
  currentOutputTranscription := currentOutputTranscription h;
  heap := S (S (S (S (heap h))))
|}.

Definition answeredHook (stream : MediaStream) (h : Hook) : Hook := {|
  isConnected := isConnected h; isConnecting := isConnecting h;
  inputAudioContextRef := inputAudioContextRef h;
  outputAudioContextRef := outputAudioContextRef h;
  inputAnalyserRef := inputAnalyserRef h;
  outputAnalyserRef := outputAnalyserRef h;
  scriptProcessorRef := scriptProcessorRef h;
  mediaStreamRef := Some stream;
  sessionRef := Some (heap h);
  nextStartTimeRef := nextStartTimeRef h;
  audioSourcesRef := audioSourcesRef h;
  currentInputTranscription := currentInputTranscription h;
  currentOutputTranscription := currentOutputTranscription h;
  heap := S (heap h)
|}.

(** What the chained callback calls when the promise settles. *)
Definition closing (session : Handle) (s : Settlement) : list Effect :=
  match s with
  | Fulfilled true _ => [ESessionClose session]
  | _ => []
  end.

(** The hook after the channel's [onopen]. *)
Definition openedHook (h : Hook) : Hook := {|
  isConnected := true; isConnecting := false;
  inputAudioContextRef := inputAudioContextRef h;
  outputAudioContextRef := outputAudioContextRef h;
  inputAnalyserRef := inputAnalyserRef h;
  outputAnalyserRef := outputAnalyserRef h;
  scriptProcessorRef := Some (S (heap h));
  mediaStreamRef := mediaStreamRef h;
  sessionRef := sessionRef h;
  nextStartTimeRef := nextStartTimeRef h;
  audioSourcesRef := audioSourcesRef h;
  currentInputTranscription := currentInputTranscription h;
  currentOutputTranscription := currentOutputTranscription h;
  heap := S (S (heap h))
|}.

(** ** More concrete inputs *)

Definition keylessSetup : Setup := {|
  API_KEY := Some "";
  getUserMedia := inr {| getTracks := [100%nat] |}
|}.

Definition refusedSetup : Setup := {|
  API_KEY := Some "key";
  getUserMedia := inl "Permission denied"
|}.


(** A message whose model turn has no parts, and which also signals
    interruption, carries a fragment and closes the turn. *)
Definition partlessMessage : LiveServerMessage := {|
  serverContent := Some {|
    modelTurn := Some {| parts := None |};
    interrupted := true;
    outputTranscription := Some {| fragment := Some "ami" |};
    inputTranscription := None;
    turnComplete := true |}
|}.

(** A message with a fragment for each role and an audio payload. *)
Definition crowdedMessage : LiveServerMessage := {|
  serverContent := Some {|
    modelTurn := Some {| parts := Some [ {| inlineData := Some {| data := Some "AA==" |} |} ] |};
    interrupted := false;
    outputTranscription := Some {| fragment := Some "ami" |};
    inputTranscription := Some {| fragment := Some "tumi" |};
    turnComplete := false |}
|}.

Definition sampleFragments : list (Reading * string) :=
  [ (reading 5 1000, "ami"); (reading 6 1001, " bhalo"); (reading 7 1002, " achi") ].

(** Two chunks, an interruption, a chunk, the end of its playback, a chunk
    and a second interruption. *)
Definition bargeInRun : list Occurrence :=
  [ Inbound (reading 5 1000) (audioPayloadEvent "AAAAAAAA");
    Inbound (reading 6 1001) (audioPayloadEvent "AAA=");
    Inbound (reading 7 1002) interruptionEvent;
    Inbound (reading 9 1003) (audioPayloadEvent "AAAAAA==");
    Ended {| source_id := 9%nat; buffer := {| duration := 2 |} |};
    Inbound (reading 12 1004) (interruptedAudioEvent "AAA=");
    Inbound (reading 13 1005) interruptionEvent ].

(** * Properties *)

(** ** Reading a trace *)

Lemma scheduled_app l1 l2 : scheduled (l1 ++ l2) = scheduled l1 ++ scheduled l2.
Proof.
  induction l1 as [|e l1 IH]; [reflexivity|].
  destruct e; cbn; rewrite ?IH; reflexivity.
Qed.

Lemma stopped_app l1 l2 : stopped (l1 ++ l2) = stopped l1 ++ stopped l2.
Proof.
  induction l1 as [|e l1 IH]; [reflexivity|].
  destruct e; cbn; rewrite ?IH; reflexivity.
Qed.

Lemma emitted_app l1 l2 : emitted (l1 ++ l2) = emitted l1 ++ emitted l2.
Proof.
  induction l1 as [|e l1 IH]; [reflexivity|].
  destruct e; cbn; rewrite ?IH; reflexivity.
Qed.

Lemma scheduled_onMessage l : scheduled (map EOnMessage l) = [].
Proof. induction l; cbn; auto. Qed.

Lemma stopped_onMessage l : stopped (map EOnMessage l) = [].
Proof. induction l; cbn; auto. Qed.

Lemma emitted_stop (l : list AudioBufferSourceNode) :
  emitted (map (fun s => EStop (source_id s)) l) = [].
Proof. induction l; cbn; auto. Qed.

Lemma stopped_stop (l : list AudioBufferSourceNode) :
  stopped (map (fun s => EStop (source_id s)) l) = map source_id l.
Proof. induction l; cbn; congruence. Qed.

Lemma scheduled_stop (l : list AudioBufferSourceNode) :
  scheduled (map (fun s => EStop (source_id s)) l) = [].
Proof. induction l; cbn; auto. Qed.

Lemma gapless_from a b l : a <= b -> gapless b l -> gapless a l.
Proof. destruct l as [|[s d] l]; cbn; intuition lia. Qed.

(** ** Sequencing *)

Lemma bind_normal {A B} (m : Run A) (k : A -> Run B) h a :
  completion (m h) = Normal a ->
  bind m k h =
  {| final := final (k a (final (m h)));
     calls := calls (m h) ++ calls (k a (final (m h)));
     completion := completion (k a (final (m h))) |}.
Proof.
  intros H. unfold bind. destruct (m h) as [h1 l1 c]. cbn in H. subst c.
  cbn. destruct (k a h1). reflexivity.
Qed.

Lemma bind_throw {A B} (m : Run A) (k : A -> Run B) h e :
  completion (m h) = Throw e ->
  bind m k h = {| final := final (m h); calls := calls (m h); completion := Throw e |}.
Proof.
  intros H. unfold bind. destruct (m h) as [h1 l1 c]. cbn in H. subst c.
  reflexivity.
Qed.

Lemma forEach_call {A} (f : A -> Effect) l h :
  forEach (fun a => call (f a)) l h =
  {| final := h; calls := map f l; completion := Normal tt |}.
Proof.
  induction l as [|a l IH]; [reflexivity|].
  cbn [forEach]. unfold bind. cbn. rewrite IH. reflexivity.
Qed.

(** ** The parts of [onmessage] *)

(** A refused [stop()] is caught, and the loop goes on. *)
Lemma stop_caught env s h :
  tryCatch (stop env s) (fun _ => ret tt) h =
  {| final := h; calls := [EStop (source_id s)]; completion := Normal tt |}.
Proof.
  unfold tryCatch, stop, bind, call, ret, throw; cbn.
  destruct (stopThrows env (source_id s)); reflexivity.
Qed.

Lemma stop_each env l h :
  forEach (fun source => tryCatch (stop env source) (fun _ => ret tt)) l h =
  {| final := h;
     calls := map (fun s => EStop (source_id s)) l;
     completion := Normal tt |}.
Proof.
  induction l as [|s l IH]; [reflexivity|].
  cbn [forEach]. unfold bind. rewrite stop_caught. cbn. rewrite IH. reflexivity.
Qed.

Lemma handleInterruption_true env m h :
  isInterrupted m = true ->
  handleInterruption env m h =
  {| final := set_nextStartTimeRef 0 (set_audioSourcesRef [] h);
     calls := map (fun s => EStop (source_id s)) (audioSourcesRef h);
     completion := Normal tt |}.
Proof.
  intros Hm. unfold handleInterruption. rewrite Hm.
  unfold bind, get, modify. cbn. rewrite stop_each. cbn.
  rewrite app_nil_r. reflexivity.
Qed.

Lemma handleInterruption_false env m h :
  isInterrupted m = false ->
  handleInterruption env m h = ret tt h.
Proof. intros Hm. unfold handleInterruption. rewrite Hm. reflexivity. Qed.

Lemma handleTranscription_frame env m h : transcriptOnly h (handleTranscription env m h).
Proof.
  unfold transcriptOnly, handleTranscription.
  destruct m as [[sc|]].
  - destruct sc as [mt i [o|] [u|] tc]; cbn.
    + exists (currentInputTranscription h), (concat (currentOutputTranscription h) (fragment o)).
      eexists [_]. destruct h; reflexivity.
    + exists (currentInputTranscription h), (concat (currentOutputTranscription h) (fragment o)).
      eexists [_]. destruct h; reflexivity.
    + exists (concat (currentInputTranscription h) (fragment u)), (currentOutputTranscription h).
      eexists [_]. destruct h; reflexivity.
    + exists (currentInputTranscription h), (currentOutputTranscription h), [].
      destruct h; reflexivity.
  - exists (currentInputTranscription h), (currentOutputTranscription h), [].
    destruct h; reflexivity.
Qed.

Lemma handleTurnComplete_frame env m h : transcriptOnly h (handleTurnComplete env m h).
Proof.
  unfold transcriptOnly, handleTurnComplete.
  destruct (isTurnComplete m).
  - destruct h as [? ? ? ? ? ? ? ? ? ? ? ci co ?].
    destruct ci as [|a ci], co as [|b co]; cbn.
    + exists "", "", []; reflexivity.
    + exists "", "". eexists [_]; reflexivity.
    + exists "", "". eexists [_]; reflexivity.
    + exists "", "". eexists [_; _]; reflexivity.
  - exists (currentInputTranscription h), (currentOutputTranscription h), [].
    destruct h; reflexivity.
Qed.

Lemma transcript_part env m h :
  transcriptOnly h ((handleTranscription env m ;; handleTurnComplete env m) h).
Proof.
  destruct (handleTranscription_frame env m h) as (ci & co & l & H).
  unfold bind. rewrite H. cbn [completion final calls].
  destruct (handleTurnComplete_frame env m (withTranscripts ci co h))
    as (ci' & co' & l' & H').
  rewrite H'. cbn [completion final calls].
  exists ci', co', (l ++ l'). rewrite map_app. reflexivity.
Qed.

Lemma afterAudio_quiet env m h :
  isInterrupted m = false ->
  let r := afterAudio env m h in
  completion r = Normal tt
  /\ nextStartTimeRef (final r) = nextStartTimeRef h
  /\ audioSourcesRef (final r) = audioSourcesRef h
  /\ scheduled (calls r) = []
  /\ stopped (calls r) = [].
Proof.
  intros Hm. unfold afterAudio.
  rewrite (bind_normal _ _ _ tt) by (rewrite handleInterruption_false by exact Hm; reflexivity).
  rewrite handleInterruption_false by exact Hm.
  cbn [ret completion final calls app].
  destruct (transcript_part env m h) as (ci & co & l & H).
  rewrite H. cbn [completion final calls].
  rewrite scheduled_onMessage, stopped_onMessage. repeat split.
Qed.

(** ** Hooks the transcript cannot tell apart *)

Lemma alike_bind {A B} (m1 m2 : Run A) (k1 k2 : A -> Run B) h1 h2 :
  alike (m1 h1) (m2 h2) ->
  (forall a h1' h2', agree h1' h2' -> alike (k1 a h1') (k2 a h2')) ->
  alike (bind m1 k1 h1) (bind m2 k2 h2).
Proof.
  intros (Hc & He & Ha) Hk. unfold bind.
  destruct (m1 h1) as [f1 l1 c1], (m2 h2) as [f2 l2 c2].
  cbn [completion calls final] in Hc, He, Ha. subst c2.
  destruct c1 as [a|e].
  - specialize (Hk a _ _ Ha).
    destruct (k1 a f1) as [g1 n1 d1], (k2 a f2) as [g2 n2 d2].
    destruct Hk as (Hc' & He' & Ha'). cbn [completion calls final] in Hc', He', Ha'.
    split; [|split]; cbn [completion calls final].
    + exact Hc'.
    + rewrite !emitted_app. congruence.
    + exact Ha'.
  - split; [|split]; cbn [completion calls final]; auto.
Qed.

Lemma handleInterruption_agree env m h1 h2 :
  agree h1 h2 -> alike (handleInterruption env m h1) (handleInterruption env m h2).
Proof.
  intros (Hi & Ho & Hx). destruct (isInterrupted m) eqn:Hm.
  - rewrite !handleInterruption_true by exact Hm.
    unfold alike, agree; cbn. rewrite !emitted_stop. auto.
  - rewrite !handleInterruption_false by exact Hm.
    unfold alike, agree; cbn. auto.
Qed.

Lemma handleTranscription_agree env m h1 h2 :
  agree h1 h2 -> alike (handleTranscription env m h1) (handleTranscription env m h2).
Proof.
  intros (Hi & Ho & Hx). unfold handleTranscription.
  destruct m as [[sc|]]; [|unfold alike, agree; cbn; auto].
  destruct sc as [mt i [o|] [u|] tc]; destruct h1, h2; cbn in *; subst;
    unfold alike, agree; cbn; auto.
Qed.

Lemma handleTurnComplete_agree env m h1 h2 :
  agree h1 h2 -> alike (handleTurnComplete env m h1) (handleTurnComplete env m h2).
Proof.
  intros (Hi & Ho & Hx). unfold handleTurnComplete.
  destruct (isTurnComplete m); [|unfold alike, agree; cbn; auto].
  destruct h1 as [? ? ? ? ? ? ? ? ? ? ? ci1 co1 ?], h2 as [? ? ? ? ? ? ? ? ? ? ? ci co ?].
  cbn in Hi, Ho, Hx. subst ci1 co1.
  destruct ci, co; unfold alike, agree; cbn; auto.
Qed.

Section Playback.

Variable base64ToBytes : string -> option (list Byte.byte).
Variable decodeAudioData : list Byte.byte -> Z -> Z -> option AudioBuffer.

Lemma onmessage_split env m :
  onmessage base64ToBytes decodeAudioData env m =
  (handleAudio base64ToBytes decodeAudioData env m ;; afterAudio env m).
Proof. reflexivity. Qed.

(** The audio part either has nothing to play, or stops at a payload that
    does not decode, or schedules one chunk. *)
Lemma handleAudio_cases env m h :
  let r := handleAudio base64ToBytes decodeAudioData env m h in
  (calls r = [] /\ final r = h)
  \/ (exists e, calls r = [] /\ completion r = Throw e
                /\ final r = set_nextStartTimeRef
                               (Z.max (nextStartTimeRef h) (currentTime env)) h)
  \/ (exists payload b,
        decoded base64ToBytes decodeAudioData payload = Some b
        /\ completion r = Normal tt
        /\ scheduled (calls r) =
             [(Z.max (nextStartTimeRef h) (currentTime env), duration b)]
        /\ final r = afterChunk env b h).
Proof.
  unfold handleAudio, audioUntilDecode, audioAfterDecode, bind, inlineAudio, decoded.
  destruct m as [sc]; destruct sc as [sc|]; [|cbn; auto].
  destruct sc as [turn i o u tc]; destruct turn as [turn|]; [|cbn; auto].
  destruct turn as [ps]; destruct ps as [ps|]; [|cbn; auto].
  destruct ps as [|p ps]; [cbn; auto|].
  destruct p as [blob]; destruct blob as [blob|]; [|cbn; auto].
  destruct blob as [payload]; destruct payload as [payload|]; [|cbn; auto].
  cbn.
  destruct (outputAudioContextRef h) as [ctx|] eqn:Hctx; cbn; auto.
  destruct (truthy payload) eqn:Ht; cbn; auto.
  destruct (base64ToBytes payload) as [bytes|] eqn:Hb; cbn; [|right; left; eauto].
  destruct (decodeAudioData bytes 24000 1) as [b|] eqn:Hd; cbn; [|right; left; eauto].
  right; right. exists payload, b. rewrite Hb.
  destruct (outputAnalyserRef h) eqn:Han; destruct h; cbn in *; repeat split; auto.
Qed.

Lemma handleAudio_agree env m h1 h2 :
  agree h1 h2 ->
  alike (handleAudio base64ToBytes decodeAudioData env m h1)
        (handleAudio base64ToBytes decodeAudioData env m h2).
Proof.
  intros (Hi & Ho & Hx). unfold handleAudio, audioUntilDecode, audioAfterDecode, bind, inlineAudio.
  destruct m as [sc]; destruct sc as [sc|]; [|unfold alike, agree; cbn; auto].
  destruct sc as [turn i o u tc]; destruct turn as [turn|]; [|unfold alike, agree; cbn; auto].
  destruct turn as [ps]; destruct ps as [ps|]; [|unfold alike, agree; cbn; auto].
  destruct ps as [|p ps]; [unfold alike, agree; cbn; auto|].
  destruct p as [blob]; destruct blob as [blob|]; [|unfold alike, agree; cbn; auto].
  destruct blob as [payload]; destruct payload as [payload|];
    [|unfold alike, agree; cbn; auto].
  cbn. rewrite <- Hx.
  destruct (outputAudioContextRef h1) as [ctx|] eqn:Hctx;
    [|unfold alike, agree; cbn; intuition congruence].
  destruct (truthy payload); [|unfold alike, agree; cbn; intuition congruence]. cbn.
  destruct (base64ToBytes payload) as [bytes|];
    [|unfold alike, agree; cbn; intuition congruence]. cbn.
  destruct (decodeAudioData bytes 24000 1) as [b|];
    [|unfold alike, agree; cbn; intuition congruence]. cbn.
  destruct (outputAnalyserRef h1), (outputAnalyserRef h2);
    unfold alike, agree; cbn; intuition congruence.
Qed.

Lemma onmessage_agree env m h1 h2 :
  agree h1 h2 ->
  alike (onmessage base64ToBytes decodeAudioData env m h1)
        (onmessage base64ToBytes decodeAudioData env m h2).
Proof.
  intros Ha. unfold onmessage.
  apply alike_bind; [apply handleAudio_agree; exact Ha|]. intros _ a1 a2 H1.
  apply alike_bind; [apply handleInterruption_agree; exact H1|]. intros _ b1 b2 H2.
  apply alike_bind; [apply handleTranscription_agree; exact H2|]. intros _ c1 c2 H3.
  apply handleTurnComplete_agree; exact H3.
Qed.

Lemma occur_agree o h1 h2 :
  agree h1 h2 ->
  alike (occur base64ToBytes decodeAudioData o h1)
        (occur base64ToBytes decodeAudioData o h2).
Proof.
  intros Ha. destruct o as [env m|source]; cbn [occur].
  - apply onmessage_agree. exact Ha.
  - destruct Ha as (Hi & Ho & Hx). unfold alike, agree, onended, modify; cbn. auto.
Qed.

Lemma deliver_agree events : forall h1 h2,
  agree h1 h2 ->
  emitted (snd (deliver base64ToBytes decodeAudioData events h1)) =
  emitted (snd (deliver base64ToBytes decodeAudioData events h2)).
Proof.
  induction events as [|o events IH]; intros h1 h2 Ha; [reflexivity|].
  cbn [deliver].
  destruct (occur_agree o h1 h2 Ha) as (_ & He & Ha').
  specialize (IH _ _ Ha').
  destruct (deliver base64ToBytes decodeAudioData events
              (final (occur base64ToBytes decodeAudioData o h1))) as [k1 l1].
  destruct (deliver base64ToBytes decodeAudioData events
              (final (occur base64ToBytes decodeAudioData o h2))) as [k2 l2].
  cbn [snd] in *. rewrite !emitted_app. congruence.
Qed.

(** One delivery without interruption, seen from the playback clock. *)
Lemma clock_step env m h :
  isInterrupted m = false ->
  let r := onmessage base64ToBytes decodeAudioData env m h in
  let start := Z.max (nextStartTimeRef h) (currentTime env) in
  (scheduled (calls r) = []
   /\ (nextStartTimeRef (final r) = nextStartTimeRef h
       \/ nextStartTimeRef (final r) = start))
  \/ (exists payload b,
        decoded base64ToBytes decodeAudioData payload = Some b
        /\ scheduled (calls r) = [(start, duration b)]
        /\ nextStartTimeRef (final r) = start + duration b).
Proof.
  intros Hm. rewrite onmessage_split.
  destruct (handleAudio_cases env m h)
    as [(Hl & Hf) | [(e & Hl & Hc & Hf) | (payload & b & Hd & Hc & Hs & Hf)]].
  - left.
    destruct (completion (handleAudio base64ToBytes decodeAudioData env m h)) eqn:Hc.
    + rewrite (bind_normal _ _ _ _ Hc). cbn [final calls].
      destruct (afterAudio_quiet env m
                  (final (handleAudio base64ToBytes decodeAudioData env m h)) Hm)
        as (_ & Hn & _ & Hs & _).
      rewrite scheduled_app, Hs, Hl, Hn, Hf. auto.
    + rewrite (bind_throw _ _ _ _ Hc). cbn [final calls]. rewrite Hl, Hf. auto.
  - left. rewrite (bind_throw _ _ _ _ Hc). cbn [final calls].
    rewrite Hl, Hf. auto.
  - right. exists payload, b. rewrite (bind_normal _ _ _ _ Hc). cbn [final calls].
    destruct (afterAudio_quiet env m
                (final (handleAudio base64ToBytes decodeAudioData env m h)) Hm)
      as (_ & Hn & _ & Hs' & _).
    rewrite scheduled_app, Hs, Hs', Hn, Hf. auto.
Qed.

(** The same for any occurrence that is not an interruption. *)
Lemma occur_clock_step o h :
  quiet o = true ->
  let r := occur base64ToBytes decodeAudioData o h in
  (scheduled (calls r) = [] /\ nextStartTimeRef h <= nextStartTimeRef (final r))
  \/ (exists start payload b,
        decoded base64ToBytes decodeAudioData payload = Some b
        /\ nextStartTimeRef h <= start
        /\ scheduled (calls r) = [(start, duration b)]
        /\ nextStartTimeRef (final r) = start + duration b).
Proof.
  destruct o as [env m|source]; cbn [quiet occur]; intros Hq.
  - apply negb_true_iff in Hq.
    destruct (clock_step env m h Hq) as [(Hs & Hn) | (payload & b & Hd & Hs & Hn)].
    + left. split; [exact Hs|]. destruct Hn as [Hn|Hn]; rewrite Hn; lia.
    + right. exists (Z.max (nextStartTimeRef h) (currentTime env)), payload, b.
      repeat split; auto. lia.
  - left. unfold onended, modify; cbn. split; [reflexivity | lia].
Qed.

Lemma schedule_run events : forall h,
  (forall payload b,
     decoded base64ToBytes decodeAudioData payload = Some b -> 0 <= duration b) ->
  Forall (fun o => quiet o = true) events ->
  let run := deliver base64ToBytes decodeAudioData events h in
  gapless (nextStartTimeRef h) (scheduled (snd run))
  /\ nextStartTimeRef h <= nextStartTimeRef (fst run).
Proof.
  induction events as [|o events IH]; intros h Hdur Hq; cbn [deliver].
  - cbn. split; [exact I | lia].
  - inversion Hq as [|? ? Hm Hq']; subst.
    specialize (IH (final (occur base64ToBytes decodeAudioData o h)) Hdur Hq').
    destruct (deliver base64ToBytes decodeAudioData events
                (final (occur base64ToBytes decodeAudioData o h))) as [k l].
    cbn [fst snd] in *. destruct IH as (Hg & Hle).
    rewrite scheduled_app.
    destruct (occur_clock_step o h Hm)
      as [(Hs & Hn) | (start & payload & b & Hd & Hlo & Hs & Hn)].
    + rewrite Hs. cbn [app]. split.
      * apply gapless_from with (2 := Hg). exact Hn.
      * lia.
    + rewrite Hs. cbn [app gapless]. rewrite Hn in *.
      pose proof (Hdur _ _ Hd). repeat split; auto; lia.
Qed.

Lemma interruption_outcome env h :
  onmessage base64ToBytes decodeAudioData env interruptionEvent h =
  {| final := set_nextStartTimeRef 0 (set_audioSourcesRef [] h);
     calls := map (fun s => EStop (source_id s)) (audioSourcesRef h);
     completion := Normal tt |}.
Proof.
  unfold onmessage, handleAudio, audioUntilDecode, audioAfterDecode,
    handleInterruption, bind; cbn.
  rewrite stop_each. cbn. rewrite !app_nil_r. reflexivity.
Qed.

Lemma audio_chunk_outcome env payload b ctx h :
  outputAudioContextRef h = Some ctx ->
  truthy payload = true ->
  decoded base64ToBytes decodeAudioData payload = Some b ->
  let r := onmessage base64ToBytes decodeAudioData env (audioPayloadEvent payload) h in
  completion r = Normal tt
  /\ scheduled (calls r) =
       [(Z.max (nextStartTimeRef h) (currentTime env), duration b)]
  /\ final r = afterChunk env b h.
Proof.
  unfold decoded. intros Hctx Hp Hd.
  destruct (base64ToBytes payload) as [bytes|] eqn:Hb; [|discriminate].
  unfold onmessage, handleAudio, audioUntilDecode, audioAfterDecode,
    handleInterruption, bind; cbn.
  rewrite Hctx, Hp; cbn. rewrite Hb; cbn. rewrite Hd; cbn.
  destruct (outputAnalyserRef h); destruct h; cbn in *; repeat split.
Qed.

Lemma audio_failure_outcome env payload ctx h :
  outputAudioContextRef h = Some ctx ->
  truthy payload = true ->
  decoded base64ToBytes decodeAudioData payload = None ->
  let r := onmessage base64ToBytes decodeAudioData env (audioPayloadEvent payload) h in
  (exists e, completion r = Throw e)
  /\ calls r = []
  /\ final r = set_nextStartTimeRef (Z.max (nextStartTimeRef h) (currentTime env)) h.
Proof.
  unfold decoded. intros Hctx Hp Hd.
  unfold onmessage, handleAudio, audioUntilDecode, audioAfterDecode,
    handleInterruption, bind; cbn.
  rewrite Hctx, Hp; cbn.
  destruct (base64ToBytes payload) as [bytes|] eqn:Hb; cbn.
  - rewrite Hd; cbn. eauto.
  - eauto.
Qed.

End Playback.

(** ** Connecting and tearing down *)

Lemma cleanup_outcome h :
  cleanup h =
  {| final := cleared h;
     calls := map release (held h) ++ [EOnDisconnect];
     completion := Normal tt |}.
Proof.
  destruct h as [c1 c2 ic oc ia oa sp ms se ns srcs ci co hp].
  unfold cleanup, held, cleared, bind, whenSet, modify, get. cbn.
  destruct ms as [[tracks]|]; cbn.
  - rewrite forEach_call. cbn. rewrite map_app, map_map. cbn.
    destruct sp, ia, oa, ic, oc, se; cbn; rewrite <- ?app_assoc; reflexivity.
  - destruct sp, ia, oa, ic, oc, se; reflexivity.
Qed.

Lemma closeWhenSettled_outcome session s h :
  closeWhenSettled session s h =
  {| final := h; calls := closing session s; completion := Normal tt |}.
Proof. destruct s as [[|] [|]|reason]; reflexivity. Qed.

Lemma busy_false h : busy h = false -> isConnected h = false /\ isConnecting h = false.
Proof. unfold busy. apply orb_false_elim. Qed.

Lemma set_isConnecting_idle h : isConnecting h = false -> set_isConnecting false h = h.
Proof. destruct h; cbn; intros ->; reflexivity. Qed.

Lemma seenBusy_render h : seenBusy (render h) = busy h.
Proof. reflexivity. Qed.


(** The two halves of [connect], and [connect] itself. *)
Lemma connectUntilDevice_busy seen env h :
  seenBusy seen = true ->
  connectUntilDevice seen env h = {| final := h; calls := []; completion := Normal false |}.
Proof. unfold seenBusy, connectUntilDevice. intros ->. reflexivity. Qed.

Lemma connectUntilDevice_outcomes seen env h :
  seenBusy seen = false ->
  connectUntilDevice seen env h =
  if hasKey env then
    {| final := waitingHook h; calls := graphCalls (heap h); completion := Normal true |}
  else
    {| final := set_isConnecting false h;
       calls := [EOnError "API Key not found"];
       completion := Normal false |}.
Proof.
  unfold seenBusy, connectUntilDevice. intros ->.
  destruct h as [c1 c2 ic oc ia oa sp ms se ns srcs ci co hp].
  unfold hasKey, bind, tryCatch.
  destruct (API_KEY env) as [k|]; [destruct (truthy k)|]; reflexivity.
Qed.

Lemma connectAfterDevice_outcomes answer h :
  connectAfterDevice answer h =
  match answer with
  | inl err =>
      {| final := set_isConnecting false h; calls := [EOnError err];
         completion := Normal tt |}
  | inr stream =>
      {| final := answeredHook stream h; calls := [ELiveConnect (heap h)];
         completion := Normal tt |}
  end.
Proof. destruct h, answer; reflexivity. Qed.

Lemma connect_busy seen env h :
  seenBusy seen = true ->
  connect seen env h = {| final := h; calls := []; completion := Normal tt |}.
Proof.
  intros Hb. unfold connect, bind. rewrite (connectUntilDevice_busy seen env h Hb).
  reflexivity.
Qed.

Lemma connect_outcomes seen env h :
  seenBusy seen = false ->
  connect seen env h =
  if hasKey env then
    match getUserMedia env with
    | inl err =>
        {| final := refusedHook h;
           calls := graphCalls (heap h) ++ [EOnError err];
           completion := Normal tt |}
    | inr stream =>
        {| final := connectedHook stream h;
           calls := graphCalls (heap h) ++ [ELiveConnect (S (S (S (S (heap h)))))];
           completion := Normal tt |}
    end
  else
    {| final := set_isConnecting false h;
       calls := [EOnError "API Key not found"];
       completion := Normal tt |}.
Proof.
  intros Hb. unfold connect, bind. rewrite (connectUntilDevice_outcomes seen env h Hb).
  destruct (hasKey env); [|reflexivity].
  rewrite connectAfterDevice_outcomes. destruct (getUserMedia env); reflexivity.
Qed.

Lemma connectStart_outcome seen env h :
  step (ConnectStart seen env) h =
  {| final := final (connectUntilDevice seen env h);
     calls := calls (connectUntilDevice seen env h);
     completion := Normal tt |}.
Proof.
  cbn [step]. unfold bind.
  destruct (seenBusy seen) eqn:Hb.
  - rewrite (connectUntilDevice_busy seen env h Hb). reflexivity.
  - rewrite (connectUntilDevice_outcomes seen env h Hb).
    destruct (hasKey env); cbn; rewrite ?app_nil_r; reflexivity.
Qed.

Lemma onopen_final a b h : final (onopen a b h) = openedHook h.
Proof. destruct h; reflexivity. Qed.


(** ** The life of a session *)

Lemma lifecycle_cons s steps h :
  lifecycle (s :: steps) h =
  (fst (lifecycle steps (final (step s h))),
   calls (step s h) ++ snd (lifecycle steps (final (step s h)))).
Proof.
  cbn [lifecycle]. destruct (lifecycle steps (final (step s h))). reflexivity.
Qed.













Lemma filter_release l : filter isRelease (map release l) = map release l.
Proof.
  induction l as [|r l IH]; [reflexivity|].
  destruct r; cbn; rewrite IH; reflexivity.
Qed.

(** ** The encoder's arithmetic *)

Lemma byteValue_octet n : Encoder.byteValue (octet n) = n mod 256.
Proof.
  unfold Encoder.byteValue, octet.
  assert (H : (Z.to_N (n mod 256) < 256)%N).
  { pose proof (Z.mod_pos_bound n 256 ltac:(lia)). lia. }
  rewrite (Byte.to_of_N (N_of_ascii (ascii_of_N (Z.to_N (n mod 256)))))
    by (symmetry; apply byte_of_ascii_via_N).
  rewrite N_ascii_embedding by exact H.
  pose proof (Z.mod_pos_bound n 256 ltac:(lia)). lia.
Qed.

Lemma int16_bytes_round_trip n rest :
  -32768 <= n <= 32767 ->
  Encoder.samplesOf (Encoder.int16Bytes n ++ rest) = n :: Encoder.samplesOf rest.
Proof.
  intros Hn. unfold Encoder.int16Bytes. cbn [app Encoder.samplesOf]. f_equal.
  unfold Encoder.int16Of. rewrite !byteValue_octet.
  destruct (32768 <=? _) eqn:Hc; [apply Z.leb_le in Hc | apply Z.leb_gt in Hc];
    Z.to_euclidean_division_equations; lia.
Qed.

Lemma toPcm16_range x : -32768 <= Encoder.toPcm16 x <= 32767.
Proof. unfold Encoder.toPcm16, Encoder.clamp16. lia. Qed.

Lemma samples_of_blob data :
  Encoder.samplesOf (Encoder.pcm (Encoder.createBlob data)) = map Encoder.toPcm16 data.
Proof.
  cbn [Encoder.createBlob Encoder.pcm].
  induction data as [|x data IH]; [reflexivity|].
  cbn [flat_map map]. rewrite int16_bytes_round_trip by apply toPcm16_range.
  rewrite IH. reflexivity.
Qed.

Lemma quantization_error x :
  (-(1) <= x <= 1)%Q ->
  (Qabs (Qmake (Encoder.toPcm16 x) 32768 - x) <= Encoder.quantum)%Q.
Proof.
  destruct x as [p q]. intros [Hlo Hhi].
  unfold Qle in Hlo, Hhi. cbn in Hlo, Hhi.
  apply Qabs_Qle_condition.
  unfold Encoder.toPcm16, Encoder.truncate, Encoder.clamp16, Encoder.quantum.
  cbn [Qmult Qnum Qden inject_Z].
  rewrite Pos.mul_1_r.
  remember (Z.quot (p * 32768) (Z.pos q)) as t eqn:Ht.
  assert (Hq : 0 < Z.pos q) by lia.
  assert (Hb : - Z.pos q < t * Z.pos q - p * 32768 < Z.pos q
               /\ (0 <= p -> 0 <= t /\ t * Z.pos q <= p * 32768)
               /\ (p <= 0 -> t <= 0 /\ p * 32768 <= t * Z.pos q)).
  { subst t. Z.to_euclidean_division_equations. nia. }
  unfold Qle, Qminus, Qplus, Qopp. cbn [Qnum Qden].
  split; nia.
Qed.

(** The sample helpers decode to buffers of non-negative duration. *)
Lemma sample_durations payload b :
  decoded sampleBase64ToBytes samplePcmDecoder payload = Some b -> 0 <= duration b.
Proof.
  unfold decoded, samplePcmDecoder.
  destruct (sampleBase64ToBytes payload) as [bytes|]; [|discriminate].
  destruct (_ =? 0); [|discriminate].
  intros H; injection H as <-. cbn. apply Z.div_pos; lia.
Qed.

(** * The claims *)

(** C1: over any run of inbound events (and ends of playback) that carries
    no interruption, the scheduled chunks do not overlap: each starts no
    earlier than the previous one's start plus the previous one's duration
    (and the first no earlier than the clock's nextStart); nextStart does not
    decrease over the run when decoded durations are non-negative; and the
    chunk scheduled next starts at max(nextStart, now), after which nextStart
    is that start plus the chunk's duration. *)
Theorem playback_schedule_monotone
    (base64ToBytes : string -> option (list Byte.byte))
    (decodeAudioData : list Byte.byte -> Z -> Z -> option AudioBuffer)
    (events : list Occurrence) (h : Hook)
    (Hdur : forall payload b,
        decoded base64ToBytes decodeAudioData payload = Some b -> 0 <= duration b)
    (Hquiet : Forall (fun o => quiet o = true) events) :
  let run := deliver base64ToBytes decodeAudioData events h in
  gapless (nextStartTimeRef h) (scheduled (snd run))
  /\ nextStartTimeRef h <= nextStartTimeRef (fst run)
  /\ (forall env payload b ctx,
        outputAudioContextRef (fst run) = Some ctx ->
        truthy payload = true ->
        decoded base64ToBytes decodeAudioData payload = Some b ->
        let r := onmessage base64ToBytes decodeAudioData env
                   (audioPayloadEvent payload) (fst run) in
        let start := Z.max (nextStartTimeRef (fst run)) (currentTime env) in
        scheduled (calls r) = [(start, duration b)]
        /\ nextStartTimeRef (final r) = start + duration b).
Proof.
  destruct (schedule_run base64ToBytes decodeAudioData events h Hdur Hquiet) as (Hg & Hm).
  split; [exact Hg|]. split; [exact Hm|].
  intros env payload b ctx Hctx Hp Hd.
  destruct (audio_chunk_outcome base64ToBytes decodeAudioData env payload b ctx _ Hctx Hp Hd)
    as (_ & Hs & Hf).
  split; [exact Hs|]. rewrite Hf. reflexivity.
Qed.

(** C2: after an interruption event, whatever was scheduled before and
    whatever the platform answers to each stop(): the handler completes, every
    source of the active set was asked to stop, the set is empty, nextStart is
    0, and the next chunk to arrive is scheduled at the output clock's current
    time. *)
Theorem interruption_resets_timeline
    (base64ToBytes : string -> option (list Byte.byte))
    (decodeAudioData : list Byte.byte -> Z -> Z -> option AudioBuffer)
    (env env' : Reading) (h : Hook) (payload : string) (b : AudioBuffer) (ctx : Handle)
    (Hctx : outputAudioContextRef h = Some ctx)
    (Hpayload : truthy payload = true)
    (Hdecoded : decoded base64ToBytes decodeAudioData payload = Some b)
    (Hnow : 0 <= currentTime env') :
  let o := onmessage base64ToBytes decodeAudioData env interruptionEvent h in
  let next := onmessage base64ToBytes decodeAudioData env'
                (audioPayloadEvent payload) (final o) in
  completion o = Normal tt
  /\ stopped (calls o) = map source_id (audioSourcesRef h)
  /\ audioSourcesRef (final o) = []
  /\ nextStartTimeRef (final o) = 0
  /\ scheduled (calls next) = [(currentTime env', duration b)].
Proof.
  cbv zeta. rewrite interruption_outcome. cbn [completion calls final].
  rewrite stopped_stop. repeat split.
  destruct (audio_chunk_outcome base64ToBytes decodeAudioData env' payload b ctx
              (set_nextStartTimeRef 0 (set_audioSourcesRef [] h)) Hctx Hpayload Hdecoded)
    as (_ & Hs & _).
  rewrite Hs. cbn. rewrite Z.max_r by exact Hnow. reflexivity.
Qed.

(** C3: from empty buffers, the fragments "ami", " bhalo", " achi" for the
    model followed by a turn-complete event emit exactly the partial messages
    "ami", "ami bhalo", "ami bhalo achi" and then the final message
    "ami bhalo achi", and leave the model's buffer empty; in general a
    fragment event appends its text to its role's buffer and emits one
    partial message with the buffer's whole text. *)
Theorem transcript_finalization
    (base64ToBytes : string -> option (list Byte.byte))
    (decodeAudioData : list Byte.byte -> Z -> Z -> option AudioBuffer)
    (h : Hook) (e1 e2 e3 e4 : Reading)
    (Hin : currentInputTranscription h = "")
    (Hout : currentOutputTranscription h = "") :
  (let run := deliver base64ToBytes decodeAudioData
                [ Inbound e1 (fragmentEvent model "ami");
                  Inbound e2 (fragmentEvent model " bhalo");
                  Inbound e3 (fragmentEvent model " achi");
                  Inbound e4 turnCompleteEvent ] h in
   map shown (emitted (snd run)) =
     [ (model, "ami", true); (model, "ami bhalo", true);
       (model, "ami bhalo achi", true); (model, "ami bhalo achi", false) ]
   /\ currentOutputTranscription (fst run) = "")
  /\ (forall env r t h0,
        let o := onmessage base64ToBytes decodeAudioData env (fragmentEvent r t) h0 in
        emitted (calls o) = [ partialMessage r (transcript r h0 ++ t)%string env ]
        /\ transcript r (final o) = (transcript r h0 ++ t)%string).
Proof.
  split.
  - destruct h; cbn in Hin, Hout; subst; cbn. auto.
  - intros env r t h0. destruct r; cbn; auto.
Qed.


(** C5: on every hook, also a partly initialized one, disconnect() followed
    by the channel-close callback completes both times without throwing.  The
    first teardown makes one call per held resource and notifies: it stops
    each track, disconnects each node, closes each context, and chains one
    closing callback on the channel's promise; the second makes none and only
    notifies.  The chained callback runs when the promise settles, whatever
    the hook has become: it calls close() once if the promise is fulfilled
    with a session that has it and not at all otherwise, swallows a rejection
    and a throwing close(), and changes nothing.  After the first teardown the
    flags are down and every resource reference is null (the playback clock,
    the source set and the transcript buffers, which hold no resource, are as
    before), and the second changes nothing. *)
Theorem teardown_idempotent (h : Hook) :
  let first := disconnect h in
  let second := onclose (final first) in
  completion first = Normal tt
  /\ completion second = Normal tt
  /\ calls first = map release (held h) ++ [EOnDisconnect]
  /\ calls second = [EOnDisconnect]
  /\ filter isRelease (calls first ++ calls second) = map release (held h)
  /\ (forall session s h',
        let later := closeWhenSettled session s h' in
        completion later = Normal tt
        /\ final later = h'
        /\ calls later = (match s with
                          | Fulfilled true _ => [ESessionClose session]
                          | _ => []
                          end))
  /\ final second = final first
  /\ final first = cleared h
  /\ isConnected (final first) = false
  /\ isConnecting (final first) = false
  /\ mediaStreamRef (final first) = None
  /\ scriptProcessorRef (final first) = None
  /\ inputAnalyserRef (final first) = None
  /\ outputAnalyserRef (final first) = None
  /\ inputAudioContextRef (final first) = None
  /\ outputAudioContextRef (final first) = None
  /\ sessionRef (final first) = None.
Proof.
  unfold disconnect, onclose. cbv zeta. rewrite !cleanup_outcome.
  cbn [final calls completion]. repeat split.
  - rewrite !filter_app, filter_release. cbn. rewrite !app_nil_r. reflexivity.
  - rewrite closeWhenSettled_outcome. reflexivity.
  - rewrite closeWhenSettled_outcome. reflexivity.
  - rewrite closeWhenSettled_outcome. reflexivity.
Qed.

(** C6, as the code has it: an audio payload that does not decode makes the
    handler stop at the failure.  No call is made (no error hook, no
    teardown, nothing scheduled or emitted); the hook is as before except
    that nextStart was raised to max(nextStart, now), so the active source
    set and the session flags are unchanged; and the events that follow are
    handled as usual. *)
Theorem decode_failure_drops_chunk
    (base64ToBytes : string -> option (list Byte.byte))
    (decodeAudioData : list Byte.byte -> Z -> Z -> option AudioBuffer)
    (env : Reading) (h : Hook) (payload : string) (ctx : Handle)
    (rest : list Occurrence)
    (Hctx : outputAudioContextRef h = Some ctx)
    (Hpayload : truthy payload = true)
    (Hfails : decoded base64ToBytes decodeAudioData payload = None) :
  let o := onmessage base64ToBytes decodeAudioData env (audioPayloadEvent payload) h in
  (exists e, completion o = Throw e)
  /\ calls o = []
  /\ final o = set_nextStartTimeRef (Z.max (nextStartTimeRef h) (currentTime env)) h
  /\ audioSourcesRef (final o) = audioSourcesRef h
  /\ deliver base64ToBytes decodeAudioData (Inbound env (audioPayloadEvent payload) :: rest) h =
     deliver base64ToBytes decodeAudioData rest (final o).
Proof.
  destruct (audio_failure_outcome base64ToBytes decodeAudioData env payload ctx h
              Hctx Hpayload Hfails) as (Hc & Hl & Hf).
  cbv zeta. repeat split; auto.
  - rewrite Hf. reflexivity.
  - cbn [deliver occur]. rewrite Hl.
    destruct (deliver base64ToBytes decodeAudioData rest _) as [k l]. reflexivity.
Qed.

(** C7: a turn-complete event emits, for the user and then for the model,
    the final message of that role if its buffer holds text and nothing if the
    buffer is empty, makes no other call, and leaves both buffers empty; so a
    role with an empty buffer gets no message, and two empty buffers give no
    call at all. *)
Theorem turn_complete_skips_empty_buffers
    (base64ToBytes : string -> option (list Byte.byte))
    (decodeAudioData : list Byte.byte -> Z -> Z -> option AudioBuffer)
    (env : Reading) (h : Hook) :
  let o := onmessage base64ToBytes decodeAudioData env turnCompleteEvent h in
  emitted (calls o) = finalMessages user env h ++ finalMessages model env h
  /\ calls o = map EOnMessage (emitted (calls o))
  /\ transcript user (final o) = ""
  /\ transcript model (final o) = ""
  /\ (forall r, transcript r h = "" -> Forall (fun m => role m <> r) (emitted (calls o)))
  /\ (transcript user h = "" -> transcript model h = "" -> calls o = []).
Proof.
  destruct h as [? ? ? ? ? ? ? ? ? ? ? ci co ?].
  destruct ci as [|a ci], co as [|b co]; cbn; repeat split; auto;
    try discriminate;
    intros [|] Hr; cbn in Hr; try discriminate;
    repeat constructor; cbn; discriminate.
Qed.

(** C8: for a frame of samples in [-1, 1] the encoder's bytes hold one 16-bit
    sample per input sample, in order and within the representable range;
    the reference decoder returns as many samples as the frame has, each
    within one step of the 16-bit grid of the sample at the same position;
    and the empty frame encodes to no bytes. *)
Theorem encoder_round_trip (data : list Q)
    (Hrange : Forall (fun x => (-(1) <= x <= 1)%Q) data) :
  let blob := Encoder.createBlob data in
  Encoder.samplesOf (Encoder.pcm blob) = map Encoder.toPcm16 data
  /\ Forall (fun n => -32768 <= n <= 32767) (Encoder.samplesOf (Encoder.pcm blob))
  /\ List.length (Encoder.decodePcm16 (Encoder.pcm blob)) = List.length data
  /\ Forall2 (fun x y => (Qabs (y - x) <= Encoder.quantum)%Q)
             data (Encoder.decodePcm16 (Encoder.pcm blob))
  /\ Encoder.pcm (Encoder.createBlob []) = [].
Proof.
  cbv zeta. unfold Encoder.decodePcm16. rewrite samples_of_blob.
  repeat split.
  - apply Forall_forall. intros n Hn. apply in_map_iff in Hn.
    destruct Hn as (x & <- & _). apply toPcm16_range.
  - rewrite !length_map. reflexivity.
  - induction Hrange as [|x data Hx _ IH]; cbn [map]; constructor.
    + apply quantization_error. exact Hx.
    + exact IH.
Qed.

(** C9, where the code departs from it: two transcript fragments handled
    within the same millisecond are emitted under the same id. *)
Theorem message_ids_collide :
  let run := deliver sampleBase64ToBytes samplePcmDecoder
               [ Inbound (reading 5 1700000000000) (fragmentEvent model "ami");
                 Inbound (reading 5 1700000000000) (fragmentEvent model " bhalo") ]
               activeHook in
  map id (emitted (snd run)) = [ "1700000000000model"; "1700000000000model" ]
  /\ map text (emitted (snd run)) = [ "ami"; "ami bhalo" ].
Proof. split; reflexivity. Qed.

(** C10: an interruption event changes the active source set and nextStart
    and nothing else: both transcript buffers are as before, no message is
    emitted, and every later run of events emits the messages it would have
    emitted had the interruption not happened. *)
Theorem interruption_keeps_transcripts
    (base64ToBytes : string -> option (list Byte.byte))
    (decodeAudioData : list Byte.byte -> Z -> Z -> option AudioBuffer)
    (env : Reading) (h : Hook) (events : list Occurrence) :
  let o := onmessage base64ToBytes decodeAudioData env interruptionEvent h in
  currentInputTranscription (final o) = currentInputTranscription h
  /\ currentOutputTranscription (final o) = currentOutputTranscription h
  /\ final o = set_nextStartTimeRef 0 (set_audioSourcesRef [] h)
  /\ emitted (calls o) = []
  /\ emitted (snd (deliver base64ToBytes decodeAudioData events (final o))) =
     emitted (snd (deliver base64ToBytes decodeAudioData events h)).
Proof.
  cbv zeta. rewrite interruption_outcome. cbn [final calls].
  rewrite emitted_stop. repeat split.
  apply deliver_agree. repeat split.
Qed.

(** C6, refuted as stated: on the active session with nextStart 0, a payload
    of one byte (which the PCM decoder rejects) arriving at output time 5
    makes the handler throw; the error hook is not called, and nextStart is 5
    afterwards. *)
Lemma decode_failure_not_reported :
  let o := onmessage sampleBase64ToBytes samplePcmDecoder (reading 5 1000)
             (audioPayloadEvent "AA==") activeHook in
  decoded sampleBase64ToBytes samplePcmDecoder "AA==" = None
  /\ completion o = Throw "decodeAudioData"
  /\ reported (calls o) = []
  /\ nextStartTimeRef activeHook = 0
  /\ nextStartTimeRef (final o) = 5.
Proof. repeat split. Qed.


(** * The claims at concrete inputs *)

Lemma playback_schedule_monotone_witness :
  (forall payload b,
      decoded sampleBase64ToBytes samplePcmDecoder payload = Some b -> 0 <= duration b)
  /\ Forall (fun o => quiet o = true) sampleRun
  /\ (let run := deliver sampleBase64ToBytes samplePcmDecoder sampleRun activeHook in
      gapless (nextStartTimeRef activeHook) (scheduled (snd run))
      /\ nextStartTimeRef activeHook <= nextStartTimeRef (fst run)
      /\ (forall env payload b ctx,
            outputAudioContextRef (fst run) = Some ctx ->
            truthy payload = true ->
            decoded sampleBase64ToBytes samplePcmDecoder payload = Some b ->
            let r := onmessage sampleBase64ToBytes samplePcmDecoder env
                       (audioPayloadEvent payload) (fst run) in
            let start := Z.max (nextStartTimeRef (fst run)) (currentTime env) in
            scheduled (calls r) = [(start, duration b)]
            /\ nextStartTimeRef (final r) = start + duration b)).
Proof.
  assert (Hquiet : Forall (fun o => quiet o = true) sampleRun)
    by (repeat constructor).
  split; [exact sample_durations|]. split; [exact Hquiet|].
  exact (playback_schedule_monotone sampleBase64ToBytes samplePcmDecoder
           sampleRun activeHook sample_durations Hquiet).
Defined.

Lemma interruption_resets_timeline_witness :
  outputAudioContextRef playingHook = Some 1%nat
  /\ truthy "AAAAAA==" = true
  /\ decoded sampleBase64ToBytes samplePcmDecoder "AAAAAA==" = Some {| duration := 2 |}
  /\ 0 <= currentTime (reading 30 1005)
  /\ (let o := onmessage sampleBase64ToBytes samplePcmDecoder (reading 9 1002)
                 interruptionEvent playingHook in
      let next := onmessage sampleBase64ToBytes samplePcmDecoder (reading 30 1005)
                    (audioPayloadEvent "AAAAAA==") (final o) in
      completion o = Normal tt
      /\ stopped (calls o) = map source_id (audioSourcesRef playingHook)
      /\ audioSourcesRef (final o) = []
      /\ nextStartTimeRef (final o) = 0
      /\ scheduled (calls next) = [(currentTime (reading 30 1005), duration {| duration := 2 |})]).
Proof.
  assert (Hctx : outputAudioContextRef playingHook = Some 1%nat) by reflexivity.
  assert (Hp : truthy "AAAAAA==" = true) by reflexivity.
  assert (Hd : decoded sampleBase64ToBytes samplePcmDecoder "AAAAAA=="
               = Some {| duration := 2 |}) by reflexivity.
  assert (Hnow : 0 <= currentTime (reading 30 1005)) by (cbn; lia).
  repeat (split; [assumption|]).
  exact (interruption_resets_timeline sampleBase64ToBytes samplePcmDecoder
           (reading 9 1002) (reading 30 1005) playingHook "AAAAAA==" {| duration := 2 |}
           1%nat Hctx Hp Hd Hnow).
Defined.

Lemma transcript_finalization_witness :
  currentInputTranscription activeHook = ""
  /\ currentOutputTranscription activeHook = ""
  /\ (let run := deliver sampleBase64ToBytes samplePcmDecoder
                   [ Inbound (reading 5 1000) (fragmentEvent model "ami");
                     Inbound (reading 6 1001) (fragmentEvent model " bhalo");
                     Inbound (reading 7 1002) (fragmentEvent model " achi");
                     Inbound (reading 8 1003) turnCompleteEvent ] activeHook in
      map shown (emitted (snd run)) =
        [ (model, "ami", true); (model, "ami bhalo", true);
          (model, "ami bhalo achi", true); (model, "ami bhalo achi", false) ]
      /\ currentOutputTranscription (fst run) = "").
Proof.
  assert (Hin : currentInputTranscription activeHook = "") by reflexivity.
  assert (Hout : currentOutputTranscription activeHook = "") by reflexivity.
  repeat (split; [assumption|]).
  exact (proj1 (transcript_finalization sampleBase64ToBytes samplePcmDecoder activeHook
                  (reading 5 1000) (reading 6 1001) (reading 7 1002) (reading 8 1003)
                  Hin Hout)).
Defined.


Lemma decode_failure_drops_chunk_witness :
  outputAudioContextRef activeHook = Some 1%nat
  /\ truthy "AA==" = true
  /\ decoded sampleBase64ToBytes samplePcmDecoder "AA==" = None
  /\ (let o := onmessage sampleBase64ToBytes samplePcmDecoder (reading 5 1000)
                 (audioPayloadEvent "AA==") activeHook in
      (exists e, completion o = Throw e)
      /\ calls o = []
      /\ final o = set_nextStartTimeRef
                     (Z.max (nextStartTimeRef activeHook) (currentTime (reading 5 1000)))
                     activeHook
      /\ audioSourcesRef (final o) = audioSourcesRef activeHook
      /\ deliver sampleBase64ToBytes samplePcmDecoder
           (Inbound (reading 5 1000) (audioPayloadEvent "AA==") :: sampleRun) activeHook =
         deliver sampleBase64ToBytes samplePcmDecoder sampleRun (final o)).
Proof.
  assert (Hctx : outputAudioContextRef activeHook = Some 1%nat) by reflexivity.
  assert (Hp : truthy "AA==" = true) by reflexivity.
  assert (Hd : decoded sampleBase64ToBytes samplePcmDecoder "AA==" = None) by reflexivity.
  repeat (split; [assumption|]).
  exact (decode_failure_drops_chunk sampleBase64ToBytes samplePcmDecoder (reading 5 1000)
           activeHook "AA==" 1%nat sampleRun Hctx Hp Hd).
Defined.

Lemma encoder_round_trip_witness :
  Forall (fun x => (-(1) <= x <= 1)%Q) sampleFrame
  /\ (let blob := Encoder.createBlob sampleFrame in
      Encoder.samplesOf (Encoder.pcm blob) = map Encoder.toPcm16 sampleFrame
      /\ Forall (fun n => -32768 <= n <= 32767) (Encoder.samplesOf (Encoder.pcm blob))
      /\ List.length (Encoder.decodePcm16 (Encoder.pcm blob)) = List.length sampleFrame
      /\ Forall2 (fun x y => (Qabs (y - x) <= Encoder.quantum)%Q)
                 sampleFrame (Encoder.decodePcm16 (Encoder.pcm blob))
      /\ Encoder.pcm (Encoder.createBlob []) = []).
Proof.
  assert (Hrange : Forall (fun x => (-(1) <= x <= 1)%Q) sampleFrame).
  { repeat constructor; unfold Qle; cbn; lia. }
  split; [exact Hrange|].
  exact (encoder_round_trip sampleFrame Hrange).
Defined.

(** * Further properties of the hook and of the chat list *)

(** X1: connect() on an Idle hook without a credential (absent or the empty
    string) reports "API Key not found" through the error hook, makes no other
    call and leaves the hook as it was. *)
Theorem connect_without_key_fails_fast (env : Setup) (h : Hook)
    (Hidle : busy h = false) (Hkey : hasKey env = false) :
  connect (render h) env h =
  {| final := h; calls := [EOnError "API Key not found"]; completion := Normal tt |}.
Proof.
  rewrite (connect_outcomes (render h) env h Hidle), Hkey.
  rewrite set_isConnecting_idle by (apply busy_false; exact Hidle). reflexivity.
Qed.

(** X2: when the device request is refused, connect() on an Idle hook has
    already created both audio contexts and both analysers: it reports the
    refusal, returns to Idle, keeps the four in its references and closes
    nothing, so both contexts stay open. *)
Theorem connect_device_refused_keeps_contexts (env : Setup) (h : Hook) (err : string)
    (Hidle : busy h = false) (Hkey : hasKey env = true)
    (Hdev : getUserMedia env = inl err) :
  let o := connect (render h) env h in
  let c := heap h in
  completion o = Normal tt
  /\ calls o = [ ENewAudioContext c 16000; ENewAudioContext (S c) 24000;
                 ECreateAnalyser c (S (S c)); ECreateAnalyser (S c) (S (S (S c)));
                 EGetUserMedia; EOnError err ]
  /\ busy (final o) = false
  /\ contextsOf (final o) = [c; S c]
  /\ inputAnalyserRef (final o) = Some (S (S c))
  /\ outputAnalyserRef (final o) = Some (S (S (S c)))
  /\ mediaStreamRef (final o) = mediaStreamRef h
  /\ sessionRef (final o) = sessionRef h
  /\ openContexts (calls o) [] = [c; S c].
Proof.
  cbv zeta. rewrite (connect_outcomes (render h) env h Hidle), Hkey, Hdev.
  destruct (busy_false h Hidle) as (H1 & _).
  cbn [final calls completion]. unfold busy, refusedHook; cbn. rewrite H1.
  repeat split.
Qed.

Lemma held_context h x : In (Context x) (held h) -> In x (contextsOf h).
Proof.
  destruct h as [c1 c2 ic oc ia oa sp ms se ns srcs ci co hp].
  unfold held, contextsOf; cbn. rewrite in_app_iff. intros [Hin | Hin].
  - destruct ms as [[tracks]|]; [|destruct Hin].
    apply in_map_iff in Hin. destruct Hin as (t & Ht & _). discriminate.
  - destruct sp, ia, oa, ic, oc, se; cbn in Hin |- *;
      intuition (try discriminate);
      match goal with H : Context _ = Context _ |- _ => injection H as <- end; auto.
Qed.

(** What a step calls and leaves, by the kind of step. *)
Lemma step_outcomes s h :
  step s h =
  match s with
  | Connect seen env =>
      if seenBusy seen then {| final := h; calls := []; completion := Normal tt |}
      else if hasKey env then
        match getUserMedia env with
        | inl err =>
            {| final := refusedHook h;
               calls := graphCalls (heap h) ++ [EOnError err];
               completion := Normal tt |}
        | inr stream =>
            {| final := connectedHook stream h;
               calls := graphCalls (heap h) ++ [ELiveConnect (S (S (S (S (heap h)))))];
               completion := Normal tt |}
        end
      else
        {| final := set_isConnecting false h;
           calls := [EOnError "API Key not found"];
           completion := Normal tt |}
  | ConnectStart seen env =>
      if seenBusy seen then {| final := h; calls := []; completion := Normal tt |}
      else if hasKey env then
        {| final := waitingHook h; calls := graphCalls (heap h); completion := Normal tt |}
      else
        {| final := set_isConnecting false h;
           calls := [EOnError "API Key not found"];
           completion := Normal tt |}
  | DeviceAnswer (inl err) =>
      {| final := set_isConnecting false h; calls := [EOnError err];
         completion := Normal tt |}
  | DeviceAnswer (inr stream) =>
      {| final := answeredHook stream h; calls := [ELiveConnect (heap h)];
         completion := Normal tt |}
  | ChannelOpen a b => onopen a b h
  | Teardown =>
      {| final := cleared h; calls := map release (held h) ++ [EOnDisconnect];
         completion := Normal tt |}
  | Settled session st =>
      {| final := h; calls := closing session st; completion := Normal tt |}
  end.
Proof.
  destruct s as [seen env|seen env|answer|a b| |session st].
  - cbn [step]. destruct (seenBusy seen) eqn:Hb.
    + apply connect_busy. exact Hb.
    + apply connect_outcomes. exact Hb.
  - rewrite connectStart_outcome. destruct (seenBusy seen) eqn:Hb.
    + rewrite (connectUntilDevice_busy seen env h Hb). reflexivity.
    + rewrite (connectUntilDevice_outcomes seen env h Hb).
      destruct (hasKey env); reflexivity.
  - cbn [step]. rewrite connectAfterDevice_outcomes. destruct answer; reflexivity.
  - reflexivity.
  - apply cleanup_outcome.
  - apply closeWhenSettled_outcome.
Qed.

Lemma closing_cases session st :
  closing session st = [] \/ closing session st = [ESessionClose session].
Proof. destruct st as [[|] ?|?]; cbn; auto. Qed.

Lemma step_closes s h x :
  In (EClose x) (calls (step s h)) -> In x (contextsOf h).
Proof.
  rewrite step_outcomes.
  destruct s as [seen env|seen env|[err|stream]|a b| |session st].
  - destruct (seenBusy seen); [intros []|].
    destruct (hasKey env); [destruct (getUserMedia env)|]; cbn;
      intuition discriminate.
  - destruct (seenBusy seen); [intros []|].
    destruct (hasKey env); cbn; intuition discriminate.
  - cbn. intuition discriminate.
  - cbn. intuition discriminate.
  - cbn. intuition discriminate.
  - cbn [calls]. rewrite in_app_iff, in_map_iff.
    intros [(r & Hr & Hin) | H].
    + destruct r; cbn in Hr; try discriminate. injection Hr as ->.
      apply held_context. exact Hin.
    + cbn in H. intuition discriminate.
  - cbn [calls]. destruct (closing_cases session st) as [-> | ->]; cbn;
      intuition discriminate.
Qed.

Lemma step_contexts s h :
  (heap h <= heap (final (step s h)))%nat
  /\ forall x, In x (contextsOf (final (step s h))) ->
               In x (contextsOf h) \/ (heap h <= x)%nat.
Proof.
  rewrite step_outcomes.
  destruct s as [seen env|seen env|[err|stream]|a b| |session st].
  - destruct (seenBusy seen); [cbn [final]; split; [lia | tauto]|].
    destruct (hasKey env); [destruct (getUserMedia env)|]; cbn [final];
      (split; [destruct h; cbn; lia|]); unfold contextsOf; destruct h; cbn; intros x Hx;
      try tauto; right; lia.
  - destruct (seenBusy seen); [cbn [final]; split; [lia | tauto]|].
    destruct (hasKey env); cbn [final];
      (split; [destruct h; cbn; lia|]); unfold contextsOf; destruct h; cbn; intros x Hx;
      try tauto; right; lia.
  - destruct h; unfold contextsOf; cbn. split; [lia | tauto].
  - destruct h; unfold contextsOf; cbn. split; [lia | tauto].
  - rewrite onopen_final. unfold contextsOf; cbn. split; [lia | tauto].
  - cbn [final]. unfold contextsOf, cleared; cbn. split; [lia | tauto].
  - cbn [final]. split; [lia | tauto].
Qed.

Lemma step_forgets c s h : forgotten c h -> forgotten c (final (step s h)).
Proof.
  intros (Hn & Hlt). destruct (step_contexts s h) as (Hh & Hc). split.
  - intros Hin. destruct (Hc c Hin); [tauto | lia].
  - lia.
Qed.

Lemma never_closed c steps : forall h,
  forgotten c h -> ~ In (EClose c) (snd (lifecycle steps h)).
Proof.
  induction steps as [|s steps IH]; intros h Hf; [cbn; tauto|].
  rewrite lifecycle_cons. cbn [snd]. rewrite in_app_iff. intros [Hin | Hin].
  - apply step_closes in Hin. destruct Hf as (Hn & _). tauto.
  - exact (IH _ (step_forgets c s h Hf) Hin).
Qed.

Lemma connect_with_key seen env h :
  seenBusy seen = false -> hasKey env = true ->
  let o := connect seen env h in
  contextsOf (final o) = [heap h; S (heap h)]
  /\ (heap h + 4 <= heap (final o))%nat
  /\ (forall x, ~ In (EClose x) (calls o))
  /\ In (ENewAudioContext (heap h) 16000) (calls o)
  /\ In (ENewAudioContext (S (heap h)) 24000) (calls o)
  /\ ((exists err, getUserMedia env = inl err) ->
      isConnecting (final o) = false /\ isConnected (final o) = isConnected h).
Proof.
  intros Hidle Hkey. cbv zeta. rewrite (connect_outcomes seen env h Hidle), Hkey.
  destruct (getUserMedia env) as [err|stream]; cbn [final calls];
    unfold contextsOf, graphCalls; cbn;
    (repeat split; try lia; try (intros; intuition discriminate); eauto);
    match goal with H : exists _, _ |- _ => destruct H as (e & He); discriminate He end.
Qed.

(** X3: after a connect() refused by the device, the next connect() with a
    credential replaces the context references, and whatever follows
    (connects whole or in halves, through any callback; channel opens;
    teardowns; settlements), the two contexts of the refused attempt are never
    closed.  Each of the two connects goes through the callback of the latest
    render. *)
Theorem refused_contexts_leak_on_retry (env1 env2 : Setup) (h : Hook) (steps : list Step)
    (Hidle : busy h = false)
    (Hkey1 : hasKey env1 = true)
    (Hdev : exists err, getUserMedia env1 = inl err)
    (Hkey2 : hasKey env2 = true) :
  let refusal := final (connect (render h) env1 h) in
  let trace := snd (lifecycle (Connect (render h) env1
                               :: Connect (render refusal) env2 :: steps) h) in
  In (ENewAudioContext (heap h) 16000) trace
  /\ In (ENewAudioContext (S (heap h)) 24000) trace
  /\ ~ In (EClose (heap h)) trace
  /\ ~ In (EClose (S (heap h))) trace.
Proof.
  cbv zeta. rewrite !lifecycle_cons. cbn [snd step].
  destruct (connect_with_key (render h) env1 h Hidle Hkey1)
    as (Hc1 & Hh1 & Hn1 & Ha & Hb & Hflags).
  destruct (Hflags Hdev) as (Hf1 & Hf2).
  destruct (busy_false h Hidle) as (Hi1 & _).
  assert (Hidle' : seenBusy (render (final (connect (render h) env1 h))) = false).
  { rewrite seenBusy_render. unfold busy. rewrite Hf1, Hf2, Hi1. reflexivity. }
  destruct (connect_with_key _ env2 (final (connect (render h) env1 h)) Hidle' Hkey2)
    as (Hc2 & Hh2 & Hn2 & _).
  assert (Hf : forall c, (c < heap h + 2)%nat -> (heap h <= c)%nat ->
                 forgotten c (final (connect (render (final (connect (render h) env1 h)))
                                       env2 (final (connect (render h) env1 h))))).
  { intros c Hlt Hge. split; [rewrite Hc2; intros [H | [H | []]]; lia | lia]. }
  rewrite !in_app_iff.
  repeat split; auto.
  - intros [H | [H | H]]; [exact (Hn1 _ H) | exact (Hn2 _ H) |].
    exact (never_closed _ steps _ (Hf (heap h) ltac:(lia) ltac:(lia)) H).
  - intros [H | [H | H]]; [exact (Hn1 _ H) | exact (Hn2 _ H) |].
    exact (never_closed _ steps _ (Hf (S (heap h)) ltac:(lia) ltac:(lia)) H).
Qed.



Lemma contextsOf_nil h :
  contextsOf h = [] -> inputAudioContextRef h = None /\ outputAudioContextRef h = None.
Proof.
  unfold contextsOf. destruct (inputAudioContextRef h), (outputAudioContextRef h);
    cbn; intros H; try discriminate; auto.
Qed.





Lemma reported_release l : reported (map release l) = [].
Proof.
  induction l as [|r l IH]; [reflexivity|]. destruct r; cbn; exact IH.
Qed.

Lemma reported_app l1 l2 : reported (l1 ++ l2) = reported l1 ++ reported l2.
Proof.
  induction l1 as [|e l1 IH]; [reflexivity|].
  destruct e; cbn; rewrite ?IH; reflexivity.
Qed.

(** X5: the channel's error callback reports "Connection error" once and then
    tears down as cleanup does, making one call per held resource (for the
    channel, the chaining of its closing callback) before it notifies; the
    close callback that follows releases nothing more, and no second error is
    reported. *)
Theorem channel_error_reports_and_tears_down (h : Hook) :
  let o := onerror h in
  let c := onclose (final o) in
  completion o = Normal tt
  /\ calls o = EOnError "Connection error" :: map release (held h) ++ [EOnDisconnect]
  /\ final o = cleared h
  /\ calls c = [EOnDisconnect]
  /\ final c = final o
  /\ reported (calls o ++ calls c) = ["Connection error"].
Proof.
  unfold onerror, onclose. cbv zeta.
  assert (Ho : (call (EOnError "Connection error") ;; cleanup) h =
               {| final := cleared h;
                  calls := EOnError "Connection error" :: map release (held h) ++ [EOnDisconnect];
                  completion := Normal tt |}).
  { unfold bind, call. rewrite cleanup_outcome. reflexivity. }
  rewrite Ho. cbn [final calls completion]. rewrite cleanup_outcome.
  cbn [final calls]. repeat split.
  cbn [app reported]. rewrite !reported_app, reported_release. reflexivity.
Qed.

Lemma started_app l1 l2 : started (l1 ++ l2) = started l1 ++ started l2.
Proof.
  induction l1 as [|e l1 IH]; [reflexivity|].
  destruct e; cbn; rewrite ?IH; reflexivity.
Qed.

Lemma started_onMessage l : started (map EOnMessage l) = [].
Proof. induction l; cbn; auto. Qed.

Lemma started_stop (l : list AudioBufferSourceNode) :
  started (map (fun s => EStop (source_id s)) l) = [].
Proof. induction l; cbn; auto. Qed.

(** What follows the audio part, in full. *)
Lemma afterAudio_outcome env m h :
  exists ci co msgs,
    afterAudio env m h =
    {| final := withTranscripts ci co
                  (if isInterrupted m
                   then set_nextStartTimeRef 0 (set_audioSourcesRef [] h) else h);
       calls := (if isInterrupted m
                 then map (fun s => EStop (source_id s)) (audioSourcesRef h) else [])
                ++ map EOnMessage msgs;
       completion := Normal tt |}.
Proof.
  unfold afterAudio. destruct (isInterrupted m) eqn:Hm.
  - rewrite (bind_normal _ _ _ tt)
      by (rewrite handleInterruption_true by exact Hm; reflexivity).
    rewrite handleInterruption_true by exact Hm. cbn [final calls completion].
    destruct (transcript_part env m (set_nextStartTimeRef 0 (set_audioSourcesRef [] h)))
      as (ci & co & l & H).
    rewrite H. exists ci, co, l. reflexivity.
  - rewrite (bind_normal _ _ _ tt)
      by (rewrite handleInterruption_false by exact Hm; reflexivity).
    rewrite handleInterruption_false by exact Hm. cbn [ret final calls completion].
    destruct (transcript_part env m h) as (ci & co & l & H).
    rewrite H. exists ci, co, l. reflexivity.
Qed.

Lemma afterAudio_withoutAudio env m h :
  afterAudio env (withoutAudio m) h = afterAudio env m h.
Proof. destruct m as [[sc|]]; reflexivity. Qed.

Lemma setAdd_fresh x l :
  Forall (fun s => (source_id s < source_id x)%nat) l ->
  setAdd x l = l ++ [x].
Proof.
  intros Hf. unfold setAdd.
  assert (He : existsb (sameNode x) l = false).
  { induction Hf as [|s l Hs _ IH]; [reflexivity|].
    cbn. rewrite IH. unfold sameNode.
    destruct (Nat.eqb_spec (source_id x) (source_id s)); [lia | reflexivity]. }
  rewrite He. reflexivity.
Qed.

Lemma setDelete_fresh x l :
  Forall (fun s => (source_id s < source_id x)%nat) l ->
  setDelete x (l ++ [x]) = l.
Proof.
  intros Hf. unfold setDelete. rewrite filter_app. cbn.
  unfold sameNode at 2. rewrite Nat.eqb_refl. cbn. rewrite app_nil_r.
  induction Hf as [|s l Hs _ IH]; [reflexivity|].
  cbn. unfold sameNode at 1.
  destruct (Nat.eqb_spec (source_id x) (source_id s)); [lia|]. cbn. f_equal. exact IH.
Qed.

Lemma sourcesFresh_chunk env b h : sourcesFresh h -> sourcesFresh (afterChunk env b h).
Proof.
  intros (Hf & Hn). unfold afterChunk.
  rewrite setAdd_fresh by exact Hf. split; cbn.
  - apply Forall_app. split.
    + eapply Forall_impl; [|exact Hf]. cbn. intros s Hs. lia.
    + constructor; [cbn; lia | constructor].
  - rewrite map_app. cbn. apply NoDup_app; [exact Hn | repeat constructor; tauto |].
    intros x Hx [<- | []]. apply in_map_iff in Hx. destruct Hx as (s & Hs & Hin).
    rewrite Forall_forall in Hf. specialize (Hf s Hin). lia.
Qed.

Lemma sourcesFresh_delete x h :
  sourcesFresh h ->
  sourcesFresh (set_audioSourcesRef (setDelete x (audioSourcesRef h)) h).
Proof.
  intros (Hf & Hn). unfold setDelete. split; cbn.
  - apply Forall_forall. intros s Hs. apply filter_In in Hs.
    rewrite Forall_forall in Hf. apply Hf. tauto.
  - clear Hf. induction (audioSourcesRef h) as [|s l IH]; [constructor|].
    cbn in Hn |- *. inversion Hn as [|? ? Hnot Hrest]; subst.
    destruct (negb (sameNode x s)); cbn; [constructor|]; auto.
    intros Hin. apply Hnot. apply in_map_iff in Hin. destruct Hin as (y & Hy & Hin).
    apply filter_In in Hin. apply in_map_iff. exists y. tauto.
Qed.

Lemma sourcesFresh_frame h h' :
  audioSourcesRef h' = audioSourcesRef h -> heap h' = heap h ->
  sourcesFresh h -> sourcesFresh h'.
Proof. unfold sourcesFresh. intros -> ->. tauto. Qed.

Lemma sourcesFresh_reset ci co h :
  sourcesFresh (withTranscripts ci co (set_nextStartTimeRef 0 (set_audioSourcesRef [] h))).
Proof. split; cbn; constructor. Qed.

Section More.

Variable base64ToBytes : string -> option (list Byte.byte).
Variable decodeAudioData : list Byte.byte -> Z -> Z -> option AudioBuffer.

(** The audio part, with all it calls. *)
Lemma handleAudio_outcomes env m h :
  let r := handleAudio base64ToBytes decodeAudioData env m h in
  (calls r = [] /\ final r = h)
  \/ (exists e, calls r = [] /\ completion r = Throw e
                /\ final r = set_nextStartTimeRef
                               (Z.max (nextStartTimeRef h) (currentTime env)) h)
  \/ (exists payload b,
        decoded base64ToBytes decodeAudioData payload = Some b
        /\ completion r = Normal tt
        /\ scheduled (calls r) =
             [(Z.max (nextStartTimeRef h) (currentTime env), duration b)]
        /\ started (calls r) = [heap h]
        /\ stopped (calls r) = []
        /\ final r = afterChunk env b h).
Proof.
  unfold handleAudio, audioUntilDecode, audioAfterDecode, bind, inlineAudio, decoded.
  destruct m as [sc]; destruct sc as [sc|]; [|cbn; auto].
  destruct sc as [turn i o u tc]; destruct turn as [turn|]; [|cbn; auto].
  destruct turn as [ps]; destruct ps as [ps|]; [|cbn; auto].
  destruct ps as [|p ps]; [cbn; auto|].
  destruct p as [blob]; destruct blob as [blob|]; [|cbn; auto].
  destruct blob as [payload]; destruct payload as [payload|]; [|cbn; auto].
  cbn.
  destruct (outputAudioContextRef h) as [ctx|] eqn:Hctx; cbn; auto.
  destruct (truthy payload) eqn:Ht; cbn; auto.
  destruct (base64ToBytes payload) as [bytes|] eqn:Hb; cbn; [|right; left; eauto].
  destruct (decodeAudioData bytes 24000 1) as [b|] eqn:Hd; cbn; [|right; left; eauto].
  right; right. exists payload, b. rewrite Hb.
  destruct (outputAnalyserRef h) eqn:Han; destruct h; cbn in *; repeat split; auto.
Qed.

Lemma handleAudio_idle env m h :
  outputAudioContextRef h = None -> lacksParts m = false ->
  handleAudio base64ToBytes decodeAudioData env m h =
  {| final := h; calls := []; completion := Normal tt |}.
Proof.
  intros Hctx Hp. unfold handleAudio, audioUntilDecode, audioAfterDecode, bind, inlineAudio. unfold lacksParts in Hp.
  destruct m as [sc]; destruct sc as [sc|]; [|reflexivity].
  destruct sc as [turn i o u tc]; destruct turn as [turn|]; [|reflexivity].
  destruct turn as [ps]; destruct ps as [ps|]; [|discriminate].
  destruct ps as [|p ps]; [reflexivity|].
  destruct p as [blob]; destruct blob as [blob|]; [|reflexivity].
  destruct blob as [payload]; destruct payload as [payload|]; [|reflexivity].
  cbn. rewrite Hctx. reflexivity.
Qed.

Lemma bind_done {A} (k : unit -> Run A) h h' :
  forall m : Run unit,
  m h = {| final := h'; calls := []; completion := Normal tt |} ->
  bind m k h = k tt h'.
Proof.
  intros m Hm. unfold bind. rewrite Hm. destruct (k tt h'). reflexivity.
Qed.

(** X6: a message whose model turn has no parts array makes the handler throw
    a TypeError before it does anything: no call is made and the hook is
    unchanged, whatever else the message carries (interruption, fragments,
    turn-complete). *)
Theorem missing_parts_drops_whole_message (env : Reading) (m : LiveServerMessage) (h : Hook)
    (Hparts : lacksParts m = true) :
  onmessage base64ToBytes decodeAudioData env m h =
  {| final := h; calls := []; completion := Throw "TypeError" |}.
Proof.
  unfold lacksParts in Hparts.
  destruct m as [sc]; destruct sc as [sc|]; [|discriminate].
  destruct sc as [turn i o u tc]; destruct turn as [turn|]; [|discriminate].
  destruct turn as [ps]; destruct ps as [ps|]; [discriminate|].
  reflexivity.
Qed.

(** X7: without an output context (before connect or after teardown) the audio
    of a message is ignored without being decoded: the message is handled
    exactly as if it had no model turn, the handler completes and nothing is
    scheduled. *)
Theorem audio_ignored_without_output_context (env : Reading) (m : LiveServerMessage)
    (h : Hook)
    (Hctx : outputAudioContextRef h = None) (Hparts : lacksParts m = false) :
  let o := onmessage base64ToBytes decodeAudioData env m h in
  o = onmessage base64ToBytes decodeAudioData env (withoutAudio m) h
  /\ scheduled (calls o) = []
  /\ completion o = Normal tt
  /\ nextStartTimeRef (final o) = (if isInterrupted m then 0 else nextStartTimeRef h).
Proof.
  cbv zeta. rewrite !onmessage_split.
  rewrite (bind_done _ h h _ (handleAudio_idle env m h Hctx Hparts)).
  assert (Hw : lacksParts (withoutAudio m) = false) by (destruct m as [[sc|]]; reflexivity).
  rewrite (bind_done _ h h _ (handleAudio_idle env (withoutAudio m) h Hctx Hw)).
  rewrite afterAudio_withoutAudio.
  destruct (afterAudio_outcome env m h) as (ci & co & msgs & H). rewrite H.
  cbn [final calls completion]. repeat split.
  - rewrite scheduled_app, scheduled_onMessage.
    destruct (isInterrupted m); [rewrite scheduled_stop|]; reflexivity.
  - destruct (isInterrupted m); reflexivity.
Qed.

(** X8: a message that carries an output transcription is handled exactly as
    if it carried no input transcription: the user's fragment of such a
    message is dropped. *)
Theorem output_transcription_shadows_input (env : Reading) (m : LiveServerMessage)
    (h : Hook) (sc : ServerContent) (tr : Transcription)
    (Hsc : serverContent m = Some sc) (Hout : outputTranscription sc = Some tr) :
  onmessage base64ToBytes decodeAudioData env m h =
  onmessage base64ToBytes decodeAudioData env (withoutInput m) h.
Proof.
  destruct m as [c]. cbn in Hsc. subst c.
  destruct sc as [turn i o u tc]. cbn in Hout. subst o. reflexivity.
Qed.


(** One inbound message: either the handler stops in its audio part, having
    called nothing, or it goes through its four parts. *)
Lemma onmessage_shape env m h :
  let r := onmessage base64ToBytes decodeAudioData env m h in
  (calls r = []
   /\ (final r = h
       \/ final r = set_nextStartTimeRef
                      (Z.max (nextStartTimeRef h) (currentTime env)) h))
  \/ (exists h1 l1 ci co msgs,
        final r = withTranscripts ci co (interruptedHook m h1)
        /\ calls r = l1 ++ stops m h1 ++ map EOnMessage msgs
        /\ (h1 = h /\ l1 = []
            \/ exists payload b,
                 decoded base64ToBytes decodeAudioData payload = Some b
                 /\ h1 = afterChunk env b h
                 /\ scheduled l1 =
                      [(Z.max (nextStartTimeRef h) (currentTime env), duration b)]
                 /\ started l1 = [heap h]
                 /\ stopped l1 = [])).
Proof.
  cbv zeta. rewrite onmessage_split.
  destruct (handleAudio_outcomes env m h)
    as [(Hl & Hf) | [(e & Hl & Hc & Hf) | (payload & b & Hd & Hc & Hs & Hst & Hsp & Hf)]].
  - destruct (completion (handleAudio base64ToBytes decodeAudioData env m h)) as [[]|e] eqn:Hc.
    + right. rewrite (bind_normal _ _ _ _ Hc). cbn [final calls]. rewrite Hl, Hf.
      destruct (afterAudio_outcome env m h) as (ci & co & msgs & H). rewrite H.
      cbn [final calls]. exists h, [], ci, co, msgs. unfold interruptedHook, stops. auto.
    + left. rewrite (bind_throw _ _ _ _ Hc). cbn [final calls]. rewrite Hl, Hf. auto.
  - left. rewrite (bind_throw _ _ _ _ Hc). cbn [final calls]. rewrite Hl, Hf. auto.
  - right. rewrite (bind_normal _ _ _ _ Hc). cbn [final calls]. rewrite Hf.
    destruct (afterAudio_outcome env m (afterChunk env b h)) as (ci & co & msgs & H).
    rewrite H. cbn [final calls].
    exists (afterChunk env b h), (calls (handleAudio base64ToBytes decodeAudioData env m h)),
      ci, co, msgs.
    unfold interruptedHook, stops. repeat split. right. exists payload, b. auto.
Qed.

Lemma occur_sourcesFresh o h :
  sourcesFresh h -> sourcesFresh (final (occur base64ToBytes decodeAudioData o h)).
Proof.
  intros Hf. destruct o as [env m|source]; cbn [occur].
  - destruct (onmessage_shape env m h)
      as [(_ & [-> | ->]) | (h1 & l1 & ci & co & msgs & -> & _ & Hh1)].
    + exact Hf.
    + exact (sourcesFresh_frame h _ eq_refl eq_refl Hf).
    + assert (H1 : sourcesFresh h1).
      { destruct Hh1 as [(-> & _) | (payload & b & _ & -> & _)]; [exact Hf|].
        apply sourcesFresh_chunk. exact Hf. }
      unfold interruptedHook. destruct (isInterrupted m).
      * apply sourcesFresh_reset.
      * exact (sourcesFresh_frame h1 _ eq_refl eq_refl H1).
  - apply sourcesFresh_delete. exact Hf.
Qed.

(** X13: scheduling a chunk adds its source at the end of the active set, and
    the end of that source's playback removes exactly it: the set is as before
    the chunk, and nextStart stays advanced. *)
Theorem ended_source_leaves_set (env : Reading) (payload : string) (b : AudioBuffer)
    (ctx : Handle) (h : Hook)
    (Hfresh : sourcesFresh h)
    (Hctx : outputAudioContextRef h = Some ctx)
    (Hpayload : truthy payload = true)
    (Hdecoded : decoded base64ToBytes decodeAudioData payload = Some b) :
  let source := {| source_id := heap h; buffer := b |} in
  let playing := final (onmessage base64ToBytes decodeAudioData env
                          (audioPayloadEvent payload) h) in
  audioSourcesRef playing = audioSourcesRef h ++ [source]
  /\ audioSourcesRef (final (onended source playing)) = audioSourcesRef h
  /\ nextStartTimeRef (final (onended source playing)) = nextStartTimeRef playing.
Proof.
  cbv zeta.
  destruct (audio_chunk_outcome base64ToBytes decodeAudioData env payload b ctx h
              Hctx Hpayload Hdecoded) as (_ & _ & Hf).
  rewrite Hf. destruct Hfresh as (Hlt & _).
  unfold afterChunk, onended, modify. cbn.
  rewrite setAdd_fresh by exact Hlt. repeat split.
  apply (setDelete_fresh {| source_id := heap h; buffer := b |}). exact Hlt.
Qed.

(** X11: a message that carries a decodable chunk and signals interruption
    starts the chunk and stops it in the same handler together with every
    source already in the set; the set is empty and nextStart is 0 afterwards. *)
Theorem interrupted_audio_is_started_then_stopped
    (env : Reading) (payload : string) (b : AudioBuffer) (ctx : Handle) (h : Hook)
    (Hctx : outputAudioContextRef h = Some ctx)
    (Hpayload : truthy payload = true)
    (Hdecoded : decoded base64ToBytes decodeAudioData payload = Some b) :
  let o := onmessage base64ToBytes decodeAudioData env (interruptedAudioEvent payload) h in
  let source := {| source_id := heap h; buffer := b |} in
  completion o = Normal tt
  /\ scheduled (calls o) = [(Z.max (nextStartTimeRef h) (currentTime env), duration b)]
  /\ stopped (calls o) = map source_id (setAdd source (audioSourcesRef h))
  /\ In (heap h) (stopped (calls o))
  /\ audioSourcesRef (final o) = []
  /\ nextStartTimeRef (final o) = 0.
Proof.
  cbv zeta. unfold decoded in Hdecoded.
  destruct (base64ToBytes payload) as [bytes|] eqn:Hb; [|discriminate].
  assert (Hin : In (heap h) (map source_id
                   (setAdd {| source_id := heap h; buffer := b |} (audioSourcesRef h)))).
  { unfold setAdd. destruct (existsb _ _) eqn:He.
    - apply existsb_exists in He. destruct He as (s & Hs & Heq).
      unfold sameNode in Heq. cbn in Heq. apply Nat.eqb_eq in Heq.
      apply in_map_iff. exists s. auto.
    - rewrite map_app. apply in_or_app. right. cbn. auto. }
  revert Hin.
  unfold onmessage, handleAudio, audioUntilDecode, audioAfterDecode,
    handleInterruption, bind; cbn.
  rewrite Hctx, Hpayload; cbn. rewrite Hb; cbn. rewrite Hdecoded; cbn.
  destruct (outputAnalyserRef h); cbn; rewrite stop_each; cbn;
    rewrite ?app_nil_r, ?stopped_app, ?scheduled_app, ?stopped_stop, ?scheduled_stop;
    cbn; rewrite ?stopped_stop, ?scheduled_stop; intros Hin; repeat split; auto.
Qed.

End More.
Lemma ids_setAdd x l : incl (ids (setAdd x l)) (ids l ++ [source_id x]).
Proof.
  unfold setAdd, ids. destruct (existsb _ _).
  - apply incl_appl, incl_refl.
  - rewrite map_app. apply incl_refl.
Qed.

Lemma ids_setDelete x l : incl (ids (setDelete x l)) (ids l).
Proof.
  unfold setDelete, ids. intros y Hy. apply in_map_iff in Hy.
  destruct Hy as (s & <- & Hs). apply filter_In in Hs. apply in_map. tauto.
Qed.

Lemma stopped_stops m h1 :
  stopped (stops m h1) = if isInterrupted m then ids (audioSourcesRef h1) else [].
Proof. unfold stops. destruct (isInterrupted m); [apply stopped_stop | reflexivity]. Qed.

Lemma started_stops m h1 : started (stops m h1) = [].
Proof. unfold stops. destruct (isInterrupted m); [apply started_stop | reflexivity]. Qed.

Lemma stoppedApart_chunk env b h acc :
  stoppedApart h acc -> stoppedApart (afterChunk env b h) acc.
Proof.
  intros (Hf & Hlt & Hn & Hd). split; [apply sourcesFresh_chunk; exact Hf|].
  destruct Hf as (Hfl & _).
  unfold afterChunk. rewrite setAdd_fresh by exact Hfl. cbn. repeat split; auto.
  - eapply Forall_impl; [|exact Hlt]. cbn. intros; lia.
  - unfold ids. rewrite map_app. intros x Hx. apply in_app_iff in Hx.
    destruct Hx as [Hx | [<- | []]]; [exact (Hd x Hx)|]. cbn.
    rewrite Forall_forall in Hlt. intros Hin. specialize (Hlt _ Hin). lia.
Qed.

Section Stops.

Variable base64ToBytes : string -> option (list Byte.byte).
Variable decodeAudioData : list Byte.byte -> Z -> Z -> option AudioBuffer.

Lemma occur_stoppedApart o h acc :
  stoppedApart h acc ->
  let r := occur base64ToBytes decodeAudioData o h in
  stoppedApart (final r) (acc ++ stopped (calls r)).
Proof.
  intros Ha. cbv zeta. destruct o as [env m|source]; cbn [occur].
  - destruct (onmessage_shape base64ToBytes decodeAudioData env m h)
      as [(-> & Hfin) | (h1 & l1 & ci & co & msgs & -> & -> & Hh1)].
    + cbn [stopped]. rewrite app_nil_r.
      destruct Hfin as [-> | ->]; [exact Ha|].
      destruct Ha as (Hf & Hrest). split; [|exact Hrest].
      exact (sourcesFresh_frame h _ eq_refl eq_refl Hf).
    + assert (H1 : stoppedApart h1 acc /\ stopped l1 = []).
      { destruct Hh1 as [(-> & ->) | (payload & b & _ & -> & _ & _ & Hs)]; [auto|].
        split; [apply stoppedApart_chunk; exact Ha | exact Hs]. }
      destruct H1 as ((Hf & Hlt & Hn & Hd) & Hs).
      rewrite !stopped_app, Hs, stopped_onMessage, stopped_stops, app_nil_r. cbn [app].
      unfold interruptedHook. destruct (isInterrupted m).
      * split; [apply sourcesFresh_reset|]. cbn. destruct Hf as (Hfl & Hfn).
        repeat split.
        -- apply Forall_app. split; [exact Hlt|].
           unfold ids. apply Forall_forall. intros x Hx. apply in_map_iff in Hx.
           destruct Hx as (s & <- & Hin). rewrite Forall_forall in Hfl. auto.
        -- apply NoDup_app; [exact Hn | exact Hfn |].
           intros x Hacc Hset. exact (Hd x Hset Hacc).
        -- intros x [].
      * rewrite app_nil_r. split; [exact (sourcesFresh_frame h1 _ eq_refl eq_refl Hf)|].
        cbn. auto.
  - unfold onended, modify. cbn. rewrite app_nil_r.
    destruct Ha as (Hf & Hlt & Hn & Hd).
    split; [apply sourcesFresh_delete; exact Hf|]. cbn. repeat split; auto.
    intros x Hx. apply Hd. exact (ids_setDelete _ _ x Hx).
Qed.

Lemma deliver_stoppedApart events : forall h acc,
  stoppedApart h acc ->
  NoDup (acc ++ stopped (snd (deliver base64ToBytes decodeAudioData events h))).
Proof.
  induction events as [|o events IH]; intros h acc Ha.
  - cbn. rewrite app_nil_r. destruct Ha as (_ & _ & Hn & _). exact Hn.
  - cbn [deliver]. specialize (IH _ _ (occur_stoppedApart o h acc Ha)).
    destruct (deliver base64ToBytes decodeAudioData events _) as [k l].
    cbn [snd] in *. rewrite stopped_app, app_assoc. exact IH.
Qed.

(** X15: over any run of inbound messages and ends of playback, interruptions
    included, no source is asked to stop twice. *)
Theorem no_source_is_stopped_twice (events : list Occurrence) (h : Hook)
    (Hfresh : sourcesFresh h) :
  NoDup (stopped (snd (deliver base64ToBytes decodeAudioData events h))).
Proof.
  apply (deliver_stoppedApart events h []).
  split; [exact Hfresh|]. repeat split; auto; constructor.
Qed.

Lemma occur_started o h st :
  incl (ids (audioSourcesRef h)) st ->
  let r := occur base64ToBytes decodeAudioData o h in
  incl (stopped (calls r)) (st ++ started (calls r))
  /\ incl (ids (audioSourcesRef (final r))) (st ++ started (calls r)).
Proof.
  intros Hi. cbv zeta. destruct o as [env m|source]; cbn [occur].
  - destruct (onmessage_shape base64ToBytes decodeAudioData env m h)
      as [(-> & Hfin) | (h1 & l1 & ci & co & msgs & -> & -> & Hh1)].
    + cbn. rewrite app_nil_r. split; [intros x []|].
      destruct Hfin as [-> | ->]; exact Hi.
    + rewrite !stopped_app, !started_app, stopped_onMessage, started_onMessage,
        stopped_stops, started_stops, !app_nil_r.
      assert (H1 : incl (ids (audioSourcesRef h1)) (st ++ started l1) /\ stopped l1 = []).
      { destruct Hh1 as [(-> & ->) | (payload & b & _ & -> & _ & -> & Hs)].
        - cbn. rewrite app_nil_r. auto.
        - split; [|exact Hs]. unfold afterChunk. cbn.
          eapply incl_tran; [apply ids_setAdd|]. cbn.
          apply incl_app; [apply incl_appl; exact Hi | apply incl_appr, incl_refl]. }
      destruct H1 as (H1 & ->). cbn [app].
      unfold interruptedHook. destruct (isInterrupted m); cbn.
      * split; [exact H1 | intros x []].
      * split; [intros x [] | exact H1].
  - unfold onended, modify. cbn. rewrite app_nil_r. split; [intros x []|].
    eapply incl_tran; [apply ids_setDelete | exact Hi].
Qed.

Lemma deliver_started events : forall h st,
  incl (ids (audioSourcesRef h)) st ->
  incl (stopped (snd (deliver base64ToBytes decodeAudioData events h)))
       (st ++ started (snd (deliver base64ToBytes decodeAudioData events h))).
Proof.
  induction events as [|o events IH]; intros h st Hi; [intros x []|].
  cbn [deliver]. destruct (occur_started o h st Hi) as (Hs & Hset).
  specialize (IH _ _ Hset).
  destruct (deliver base64ToBytes decodeAudioData events _) as [k l].
  cbn [snd] in *. rewrite stopped_app, started_app, app_assoc.
  apply incl_app; [apply incl_appl; exact Hs | exact IH].
Qed.

(** X16: over any run from a hook with an empty source set, every source asked
    to stop is one the run started. *)
Theorem only_started_sources_are_stopped (events : list Occurrence) (h : Hook)
    (Hempty : audioSourcesRef h = []) :
  let trace := snd (deliver base64ToBytes decodeAudioData events h) in
  incl (stopped trace) (started trace).
Proof.
  apply (deliver_started events h []). rewrite Hempty. intros x [].
Qed.

End Stops.

Section More2.

Variable base64ToBytes : string -> option (list Byte.byte).
Variable decodeAudioData : list Byte.byte -> Z -> Z -> option AudioBuffer.

Lemma fragment_outcome env r t h :
  onmessage base64ToBytes decodeAudioData env (fragmentEvent r t) h =
  {| final := match r with
              | user => set_currentInputTranscription (currentInputTranscription h ++ t) h
              | model => set_currentOutputTranscription (currentOutputTranscription h ++ t) h
              end;
     calls := [EOnMessage (partialMessage r (transcript r h ++ t)%string env)];
     completion := Normal tt |}.
Proof. destruct r; reflexivity. Qed.

Lemma fragments_run (r : Role) (frags : list (Reading * string)) (h : Hook) :
  let run := deliver base64ToBytes decodeAudioData (fragments r frags) h in
  snd run = map EOnMessage (partials r (transcript r h) frags)
  /\ transcript r (fst run) = bufferAfter (transcript r h) frags
  /\ transcript (other r) (fst run) = transcript (other r) h
  /\ nextStartTimeRef (fst run) = nextStartTimeRef h
  /\ audioSourcesRef (fst run) = audioSourcesRef h.
Proof.
  revert h. induction frags as [|[env t] frags IH]; intros h; [cbn; auto|].
  cbn [fragments map fst snd deliver occur] in *.
  rewrite fragment_outcome. cbn [final calls].
  specialize (IH (match r with
              | user => set_currentInputTranscription (currentInputTranscription h ++ t) h
              | model => set_currentOutputTranscription (currentOutputTranscription h ++ t) h
              end)).
  destruct (deliver base64ToBytes decodeAudioData _ _) as [k l].
  cbn [fst snd] in *. destruct IH as (Hl & Hb & Ho & Hn & Hs).
  rewrite Hl, Hb, Ho, Hn, Hs. destruct r; cbn; auto.
Qed.

(** X9: a run of fragments for one role emits one partial message per
    fragment, each with the whole text so far, leaves the role's buffer at the
    concatenation, and touches neither the other role's buffer nor the
    playback clock nor the source set. *)
Theorem fragments_accumulate (r : Role) (frags : list (Reading * string)) (h : Hook) :
  let run := deliver base64ToBytes decodeAudioData (fragments r frags) h in
  snd run = map EOnMessage (partials r (transcript r h) frags)
  /\ transcript r (fst run) = bufferAfter (transcript r h) frags
  /\ transcript (other r) (fst run) = transcript (other r) h
  /\ nextStartTimeRef (fst run) = nextStartTimeRef h
  /\ audioSourcesRef (fst run) = audioSourcesRef h.
Proof. exact (fragments_run r frags h). Qed.

(** X10: a message that carries a fragment and the turn-complete flag is
    handled exactly as the fragment message followed by a turn-complete
    message at the same clock reading. *)
Theorem closing_fragment_is_fragment_then_turn_complete
    (env : Reading) (r : Role) (t : string) (h : Hook) :
  deliver base64ToBytes decodeAudioData [Inbound env (closingFragmentEvent r t)] h =
  deliver base64ToBytes decodeAudioData
    [Inbound env (fragmentEvent r t); Inbound env turnCompleteEvent] h.
Proof.
  destruct h as [? ? ? ? ? ? ? ? ? ? ? ci co ?].
  destruct r; cbn;
    match goal with
    | |- context [truthy ?x] => destruct (truthy x)
    end; cbn;
    try match goal with
    | |- context [truthy ?x] => destruct (truthy x)
    end; reflexivity.
Qed.

End More2.

Lemma last_snoc {A} (init : list A) (l : A) :
  nth_error (init ++ [l]) (List.length (init ++ [l]) - 1) = Some l.
Proof.
  rewrite length_app. cbn. replace (List.length init + 1 - 1)%nat with (List.length init) by lia.
  rewrite nth_error_app2 by lia. rewrite Nat.sub_diag. reflexivity.
Qed.

Lemma setAt_snoc {A} (init : list A) (l x : A) :
  setAt (List.length (init ++ [l]) - 1) x (init ++ [l]) = init ++ [x].
Proof.
  rewrite length_app. cbn. replace (List.length init + 1 - 1)%nat with (List.length init) by lia.
  induction init as [|a init IH]; [reflexivity|]. cbn. f_equal. exact IH.
Qed.

Lemma handleMessage_nil m : handleMessage [] m = [m].
Proof. reflexivity. Qed.

Lemma handleMessage_snoc init l m :
  handleMessage (init ++ [l]) m =
  if sameRole (role l) (role m) && isPartial l then init ++ [m] else init ++ [l; m].
Proof.
  unfold handleMessage. rewrite last_snoc, setAt_snoc.
  destruct (sameRole (role l) (role m)), (isPartial l), (isPartial m); cbn;
    rewrite <- ?app_assoc; reflexivity.
Qed.

Lemma handleMessage_append init l m :
  sameRole (role l) (role m) && isPartial l = false ->
  handleMessage (init ++ [l]) m = (init ++ [l]) ++ [m].
Proof.
  intros H. rewrite handleMessage_snoc, H, <- app_assoc. reflexivity.
Qed.

Lemma endsPartial_snoc r init l :
  endsPartial r (init ++ [l]) = sameRole (role l) r && isPartial l.
Proof. unfold endsPartial. rewrite last_snoc. reflexivity. Qed.

Lemma sameRole_refl r : sameRole r r = true.
Proof. destruct r; reflexivity. Qed.

Lemma handleMessage_spec prev m :
  handleMessage prev m =
  (if endsPartial (role m) prev then removelast prev else prev) ++ [m].
Proof.
  induction prev as [|l init _] using rev_ind; [reflexivity|].
  rewrite handleMessage_snoc, endsPartial_snoc, removelast_last.
  destruct (sameRole (role l) (role m) && isPartial l);
    rewrite <- ?app_assoc; reflexivity.
Qed.

(** X17: the chat list's updater puts the new message last, in place of the
    last message when that one is a partial of the same role and after it
    otherwise; the list never shrinks, grows by at most one, keeps every
    message but the last, and ends in a partial of the new message's role
    exactly when the new message is partial. *)
Theorem handleMessage_replaces_or_appends (prev : list Message) (m : Message) :
  let next := handleMessage prev m in
  next = (if endsPartial (role m) prev then removelast prev else prev) ++ [m]
  /\ (List.length prev <= List.length next <= List.length prev + 1)%nat
  /\ (forall i, (i + 1 < List.length prev)%nat -> nth_error next i = nth_error prev i)
  /\ endsPartial (role m) next = isPartial m.
Proof.
  cbv zeta. rewrite handleMessage_spec. split; [reflexivity|].
  induction prev as [|l init _] using rev_ind.
  - cbn. rewrite sameRole_refl. split; [lia|]. split; [|reflexivity].
    intros i Hi. cbn in Hi. lia.
  - rewrite endsPartial_snoc, removelast_last.
    destruct (sameRole (role l) (role m) && isPartial l).
    + split; [rewrite !length_app; cbn; lia|]. split.
      * intros i Hi. rewrite length_app in Hi. cbn in Hi.
        rewrite !nth_error_app1 by lia. reflexivity.
      * rewrite endsPartial_snoc, sameRole_refl. reflexivity.
    + split; [rewrite !length_app; cbn; lia|]. split.
      * intros i Hi. rewrite length_app in Hi. cbn in Hi.
        rewrite (nth_error_app1 (init ++ [l])) by (rewrite length_app; cbn; lia).
        reflexivity.
      * rewrite endsPartial_snoc, sameRole_refl. reflexivity.
Qed.

Lemma partials_collapse ps : forall f prev,
  Forall (fun p => role p = role f /\ isPartial p = true) ps ->
  fold_left handleMessage (ps ++ [f]) prev = handleMessage prev f.
Proof.
  induction ps as [|p ps IH]; intros f prev Hps; [reflexivity|].
  inversion Hps as [|? ? (Hr & Hp) Hrest]; subst.
  cbn [app fold_left]. rewrite (IH f _ Hrest).
  rewrite (handleMessage_spec prev p), handleMessage_snoc, Hr, sameRole_refl, Hp.
  cbn [andb]. rewrite handleMessage_spec. reflexivity.
Qed.

(** X18: a run of partial messages of one role followed by a message of that
    role leaves the chat list as if only the last message had arrived. *)
Theorem partials_are_transient (ps : list Message) (f : Message) (prev : list Message)
    (Hps : Forall (fun p => role p = role f /\ isPartial p = true) ps) :
  fold_left handleMessage (ps ++ [f]) prev = handleMessage prev f.
Proof. exact (partials_collapse ps f prev Hps). Qed.

Lemma emitted_onMessage l : emitted (map EOnMessage l) = l.
Proof. induction l; cbn; congruence. Qed.

Lemma partials_shape r frags : forall acc f,
  role f = r ->
  Forall (fun p => role p = role f /\ isPartial p = true) (partials r acc frags).
Proof.
  induction frags as [|[env t] frags IH]; intros acc f Hf; cbn [partials]; constructor.
  - cbn. auto.
  - apply IH. exact Hf.
Qed.

Section Chat.

Variable base64ToBytes : string -> option (list Byte.byte).
Variable decodeAudioData : list Byte.byte -> Z -> Z -> option AudioBuffer.

Lemma deliver_app l1 : forall l2 h,
  deliver base64ToBytes decodeAudioData (l1 ++ l2) h =
  (fst (deliver base64ToBytes decodeAudioData l2
          (fst (deliver base64ToBytes decodeAudioData l1 h))),
   snd (deliver base64ToBytes decodeAudioData l1 h)
   ++ snd (deliver base64ToBytes decodeAudioData l2
             (fst (deliver base64ToBytes decodeAudioData l1 h)))).
Proof.
  induction l1 as [|o l1 IH]; intros l2 h.
  - cbn. destruct (deliver base64ToBytes decodeAudioData l2 h). reflexivity.
  - cbn [app deliver]. rewrite IH.
    destruct (deliver base64ToBytes decodeAudioData l1 _) as [k l]. cbn [fst snd].
    rewrite app_assoc. reflexivity.
Qed.

Lemma turnComplete_emitted env h :
  emitted (calls (onmessage base64ToBytes decodeAudioData env turnCompleteEvent h)) =
  finalMessages user env h ++ finalMessages model env h.
Proof.
  destruct h as [? ? ? ? ? ? ? ? ? ? ? ci co ?].
  destruct ci, co; reflexivity.
Qed.

(** X19: a turn in which only one role speaks (the other buffer empty, the
    text not empty) ends with the chat list holding one message for it, the
    final one with the whole text, in place of a trailing partial of that role
    if there was one. *)
Theorem single_role_turn_shows_one_message
    (r : Role) (frags : list (Reading * string)) (env : Reading)
    (h : Hook) (prev : list Message)
    (Hother : transcript (other r) h = "")
    (Htext : truthy (bufferAfter (transcript r h) frags) = true) :
  let run := deliver base64ToBytes decodeAudioData
               (fragments r frags ++ [Inbound env turnCompleteEvent]) h in
  chat prev (snd run) =
  (if endsPartial r prev then removelast prev else prev)
  ++ [finalMessage r (bufferAfter (transcript r h) frags) env].
Proof.
  cbv zeta. rewrite deliver_app.
  destruct (fragments_run base64ToBytes decodeAudioData r frags h) as (Hl & Hb & Ho & _).
  cbn [snd fst]. rewrite Hl. unfold chat.
  set (h1 := fst (deliver base64ToBytes decodeAudioData (fragments r frags) h)) in *.
  cbn [deliver occur snd]. rewrite app_nil_r, emitted_app, emitted_onMessage.
  rewrite turnComplete_emitted. unfold finalMessages.
  assert (Hfin : (if truthy (transcript user h1) then
                    [finalMessage user (transcript user h1) env] else [])
                 ++ (if truthy (transcript model h1) then
                       [finalMessage model (transcript model h1) env] else [])
                 = [finalMessage r (bufferAfter (transcript r h) frags) env]).
  { destruct r; cbn [other] in Ho, Hother; rewrite Ho, Hother, Hb, Htext; reflexivity. }
  fold (finalMessage user (transcript user h1) env).
  fold (finalMessage model (transcript model h1) env).
  rewrite Hfin.
  rewrite partials_collapse by (apply partials_shape; reflexivity).
  rewrite handleMessage_spec. reflexivity.
Qed.

(** X20: when a user fragment and a model fragment arrive in the same turn,
    the chat list ends with four messages for it: both partials stay, followed
    by both finals. *)
Theorem interleaved_roles_keep_stale_partials
    (u m : string) (e1 e2 e3 : Reading) (h : Hook) (prev : list Message)
    (Hin : currentInputTranscription h = "")
    (Hout : currentOutputTranscription h = "")
    (Hu : truthy u = true) (Hm : truthy m = true)
    (Hprev : endsPartial user prev = false) :
  let run := deliver base64ToBytes decodeAudioData
               [ Inbound e1 (fragmentEvent user u);
                 Inbound e2 (fragmentEvent model m);
                 Inbound e3 turnCompleteEvent ] h in
  chat prev (snd run) =
  prev ++ [ partialMessage user u e1; partialMessage model m e2;
            finalMessage user u e3; finalMessage model m e3 ].
Proof.
  cbv zeta.
  assert (He : emitted (snd (deliver base64ToBytes decodeAudioData
                 [ Inbound e1 (fragmentEvent user u);
                   Inbound e2 (fragmentEvent model m);
                   Inbound e3 turnCompleteEvent ] h)) =
               [ partialMessage user u e1; partialMessage model m e2;
                 finalMessage user u e3; finalMessage model m e3 ]).
  { destruct h as [? ? ? ? ? ? ? ? ? ? ? ci co ?]. cbn in Hin, Hout. subst ci co.
    destruct u as [|a u]; [discriminate|]. destruct m as [|b m]; [discriminate|].
    reflexivity. }
  unfold chat. rewrite He. cbn [fold_left].
  rewrite (handleMessage_spec prev). cbn [role partialMessage]. rewrite Hprev.
  rewrite !handleMessage_append by reflexivity.
  rewrite <- !app_assoc. reflexivity.
Qed.

End Chat.

Lemma NoDup_map_injective {A B} (f : A -> B) (l : list A) :
  (forall x y, f x = f y -> x = y) -> NoDup l -> NoDup (map f l).
Proof.
  intros Hinj Hl. induction Hl as [|x l Hx _ IH]; cbn; constructor; [|exact IH].
  intros Hin. apply in_map_iff in Hin. destruct Hin as (y & Hy & Hin).
  apply Hinj in Hy. subst y. exact (Hx Hin).
Qed.

Lemma playback_only l :
  forallb isPlayback l = true ->
  reported l = [] /\ filter isRelease l = [] /\ filter isAcquisition l = [].
Proof.
  induction l as [|e l IH]; [auto|]. cbn [forallb]. intros H.
  apply andb_true_iff in H. destruct H as (He & Hl). specialize (IH Hl).
  destruct IH as (H1 & H2 & H3).
  destruct e; try discriminate He; cbn; auto.
Qed.

Lemma playback_stops m h1 msgs :
  forallb isPlayback (stops m h1 ++ map EOnMessage msgs) = true.
Proof.
  rewrite forallb_app. apply andb_true_iff. split.
  - unfold stops. destruct (isInterrupted m); [|reflexivity].
    induction (audioSourcesRef h1); cbn; auto.
  - induction msgs; cbn; auto.
Qed.

Section Frame.

Variable base64ToBytes : string -> option (list Byte.byte).
Variable decodeAudioData : list Byte.byte -> Z -> Z -> option AudioBuffer.

Lemma handleAudio_frame env m h :
  let r := handleAudio base64ToBytes decodeAudioData env m h in
  forallb isPlayback (calls r) = true /\ lifecyclePart (final r) = lifecyclePart h.
Proof.
  unfold handleAudio, audioUntilDecode, audioAfterDecode, bind, inlineAudio.
  destruct m as [sc]; destruct sc as [sc|]; [|cbn; auto].
  destruct sc as [turn i o u tc]; destruct turn as [turn|]; [|cbn; auto].
  destruct turn as [ps]; destruct ps as [ps|]; [|cbn; auto].
  destruct ps as [|p ps]; [cbn; auto|].
  destruct p as [blob]; destruct blob as [blob|]; [|cbn; auto].
  destruct blob as [payload]; destruct payload as [payload|]; [|cbn; auto].
  cbn.
  destruct (outputAudioContextRef h) as [ctx|] eqn:Hctx; cbn; auto.
  destruct (truthy payload) eqn:Ht; cbn; auto.
  destruct (base64ToBytes payload) as [bytes|] eqn:Hb; cbn; auto.
  destruct (decodeAudioData bytes 24000 1) as [b|] eqn:Hd; cbn; auto.
  destruct (outputAnalyserRef h) eqn:Han; cbn; auto.
Qed.

Lemma occur_frame o h :
  let r := occur base64ToBytes decodeAudioData o h in
  forallb isPlayback (calls r) = true /\ lifecyclePart (final r) = lifecyclePart h.
Proof.
  cbv zeta. destruct o as [env m|source]; cbn [occur]; [|split; reflexivity].
  rewrite onmessage_split.
  destruct (handleAudio_frame env m h) as (Hp & Hl).
  destruct (completion (handleAudio base64ToBytes decodeAudioData env m h)) as [[]|e] eqn:Hc.
  - rewrite (bind_normal _ _ _ _ Hc). cbn [final calls].
    destruct (afterAudio_outcome env m
                (final (handleAudio base64ToBytes decodeAudioData env m h)))
      as (ci & co & msgs & H).
    rewrite H. cbn [final calls]. split.
    + rewrite forallb_app, Hp. cbn [andb]. apply (playback_stops m).
    + rewrite <- Hl. destruct (isInterrupted m); reflexivity.
  - rewrite (bind_throw _ _ _ _ Hc). cbn [final calls]. auto.
Qed.

(** X22: no run of inbound messages and ends of playback calls the error hook,
    releases or acquires a resource, or changes the flags or the resource
    references: its only calls create, wire, start and stop buffer sources and
    emit messages. *)
Theorem deliveries_leave_the_session_alone (events : list Occurrence) (h : Hook) :
  let run := deliver base64ToBytes decodeAudioData events h in
  forallb isPlayback (snd run) = true
  /\ reported (snd run) = []
  /\ filter isRelease (snd run) = []
  /\ filter isAcquisition (snd run) = []
  /\ lifecyclePart (fst run) = lifecyclePart h.
Proof.
  cbv zeta.
  assert (H : forallb isPlayback (snd (deliver base64ToBytes decodeAudioData events h)) = true
              /\ lifecyclePart (fst (deliver base64ToBytes decodeAudioData events h))
                 = lifecyclePart h).
  { revert h. induction events as [|o events IH]; intros h; [split; reflexivity|].
    cbn [deliver]. destruct (occur_frame o h) as (Hp & Hl).
    specialize (IH (final (occur base64ToBytes decodeAudioData o h))).
    destruct (deliver base64ToBytes decodeAudioData events _) as [k l].
    cbn [fst snd] in *. destruct IH as (Hp' & Hl'). split.
    - rewrite forallb_app, Hp, Hp'. reflexivity.
    - rewrite Hl', Hl. reflexivity. }
  destruct H as (Hp & Hl). destruct (playback_only _ Hp) as (H1 & H2 & H3).
  auto.
Qed.

(** X23: a second turn-complete event right after a first makes no call and
    changes nothing: a turn is finalized once. *)
Theorem repeated_turn_complete_emits_nothing (env env' : Reading) (h : Hook) :
  let first := onmessage base64ToBytes decodeAudioData env turnCompleteEvent h in
  let second := onmessage base64ToBytes decodeAudioData env' turnCompleteEvent
                  (final first) in
  calls second = [] /\ final second = final first /\ completion second = Normal tt.
Proof.
  destruct h as [? ? ? ? ? ? ? ? ? ? ? ci co ?].
  destruct ci, co; repeat split.
Qed.

(** X24: a second interruption event right after a first makes no call and
    changes nothing. *)
Theorem repeated_interruption_stops_nothing (env env' : Reading) (h : Hook) :
  let first := onmessage base64ToBytes decodeAudioData env interruptionEvent h in
  let second := onmessage base64ToBytes decodeAudioData env' interruptionEvent
                  (final first) in
  calls second = [] /\ final second = final first /\ completion second = Normal tt.
Proof.
  cbv zeta. rewrite !interruption_outcome. cbn [final calls completion map].
  repeat split.
Qed.

Lemma occur_nonnegative o h :
  (forall payload b,
      decoded base64ToBytes decodeAudioData payload = Some b -> 0 <= duration b) ->
  0 <= nextStartTimeRef h ->
  let r := occur base64ToBytes decodeAudioData o h in
  0 <= nextStartTimeRef (final r)
  /\ Forall (fun c => 0 <= fst c) (scheduled (calls r)).
Proof.
  intros Hdur Hns. cbv zeta. destruct o as [env m|source]; cbn [occur];
    [|split; [exact Hns | constructor]].
  destruct (onmessage_shape base64ToBytes decodeAudioData env m h)
    as [(-> & Hfin) | (h1 & l1 & ci & co & msgs & -> & -> & Hh1)].
  - split; [|constructor]. destruct Hfin as [-> | ->]; cbn; lia.
  - assert (Hq : scheduled (stops m h1 ++ map EOnMessage msgs) = []).
    { rewrite scheduled_app, scheduled_onMessage. unfold stops.
      destruct (isInterrupted m); [rewrite scheduled_stop|]; reflexivity. }
    rewrite scheduled_app, Hq, app_nil_r.
    assert (H1 : 0 <= nextStartTimeRef h1 /\ Forall (fun c => 0 <= fst c) (scheduled l1)).
    { destruct Hh1 as [(-> & ->) | (payload & b & Hd & -> & -> & _)].
      - split; [exact Hns | constructor].
      - pose proof (Hdur _ _ Hd). cbn. split; [lia|].
        constructor; [cbn; lia | constructor]. }
    destruct H1 as (H1 & H2). split; [|exact H2].
    unfold interruptedHook. destruct (isInterrupted m); cbn; [lia | exact H1].
Qed.

(** X25: over any run, interruptions included, from a non-negative nextStart
    and with non-negative decoded durations, nextStart stays non-negative and
    no chunk is started at a negative time. *)
Theorem start_times_are_never_negative (events : list Occurrence) (h : Hook)
    (Hdur : forall payload b,
        decoded base64ToBytes decodeAudioData payload = Some b -> 0 <= duration b)
    (Hns : 0 <= nextStartTimeRef h) :
  let run := deliver base64ToBytes decodeAudioData events h in
  0 <= nextStartTimeRef (fst run)
  /\ Forall (fun c => 0 <= fst c) (scheduled (snd run)).
Proof.
  revert h Hns. induction events as [|o events IH]; intros h Hns.
  - cbn. split; [exact Hns | constructor].
  - cbn [deliver]. destruct (occur_nonnegative o h Hdur Hns) as (H1 & H2).
    specialize (IH _ H1).
    destruct (deliver base64ToBytes decodeAudioData events _) as [k l].
    cbn [fst snd] in *. destruct IH as (H3 & H4). split; [exact H3|].
    rewrite scheduled_app. apply Forall_app. auto.
Qed.



(** X21: a successful connect() followed by the channel's open leaves the hook
    Active holding the stream's tracks, the processor, two analysers, two
    contexts and the channel, all distinct when the tracks are.  Its teardown
    makes exactly one call for each of them, in that order, before it
    notifies: it stops each track, disconnects the three nodes, closes the two
    contexts and chains the closing callback on the channel's promise; no call
    is made twice, nothing is held afterwards, and the chained callback closes
    the channel when the promise is fulfilled with a session that can be
    closed. *)
Theorem active_session_holds_distinct_resources
    (seen : Render) (env : Setup) (stream : MediaStream) (a b : Handle) (h : Hook)
    (Hidle : seenBusy seen = false) (Hkey : hasKey env = true)
    (Hdev : getUserMedia env = inr stream)
    (Htracks : NoDup (getTracks stream)) :
  let active := final (onopen a b (final (connect seen env h))) in
  let c := heap h in
  isConnected active = true
  /\ isConnecting active = false
  /\ held active =
       map Track (getTracks stream)
       ++ [ Node (ScriptProcessor (6 + c)%nat); Node (Analyser (2 + c)%nat);
            Node (Analyser (3 + c)%nat); Context c; Context (1 + c)%nat;
            Channel (4 + c)%nat ]
  /\ NoDup (held active)
  /\ calls (cleanup active) =
       map ETrackStop (getTracks stream)
       ++ [ EDisconnect (ScriptProcessor (6 + c)%nat); EDisconnect (Analyser (2 + c)%nat);
            EDisconnect (Analyser (3 + c)%nat); EClose c; EClose (1 + c)%nat;
            ESessionThen (4 + c)%nat; EOnDisconnect ]
  /\ NoDup (calls (cleanup active))
  /\ held (final (cleanup active)) = []
  /\ calls (closeWhenSettled (4 + c)%nat (Fulfilled true false) (final (cleanup active))) =
       [ESessionClose (4 + c)%nat].
Proof.
  cbv zeta.
  assert (Hheld : held (final (onopen a b (final (connect seen env h)))) =
       map Track (getTracks stream)
       ++ [ Node (ScriptProcessor (6 + heap h)%nat); Node (Analyser (2 + heap h)%nat);
            Node (Analyser (3 + heap h)%nat); Context (heap h); Context (1 + heap h)%nat;
            Channel (4 + heap h)%nat ]
       /\ isConnected (final (onopen a b (final (connect seen env h)))) = true
       /\ isConnecting (final (onopen a b (final (connect seen env h)))) = false).
  { rewrite onopen_final, (connect_outcomes seen env h Hidle), Hkey, Hdev.
    cbn [final]. repeat split. }
  destruct Hheld as (Hheld & Hc & Hg).
  assert (Hnd : NoDup (held (final (onopen a b (final (connect seen env h)))))).
  { rewrite Hheld. apply NoDup_app.
    - apply NoDup_map_injective; [|exact Htracks].
      intros x y Hxy. injection Hxy. auto.
    - repeat constructor; cbn; intuition (try discriminate);
        match goal with H : _ = _ |- _ => injection H; lia end.
    - intros x Hx Hy. apply in_map_iff in Hx. destruct Hx as (t & <- & _).
      cbn in Hy. intuition discriminate. }
  split; [exact Hc|]. split; [exact Hg|]. split; [exact Hheld|]. split; [exact Hnd|].
  rewrite cleanup_outcome. cbn [calls final]. split.
  - rewrite Hheld, map_app, map_map, <- app_assoc. reflexivity.
  - split.
    + apply NoDup_app.
      * apply NoDup_map_injective; [|exact Hnd].
        intros x y Hxy. destruct x, y; cbn in Hxy; congruence.
      * repeat constructor. intros [].
      * intros x Hx [<- | []]. apply in_map_iff in Hx.
        destruct Hx as (r & Hr & _). destruct r; discriminate.
    + split; [reflexivity|]. rewrite closeWhenSettled_outcome. reflexivity.
Qed.

End Frame.

(** * The further properties at concrete inputs *)

Lemma connect_without_key_fails_fast_witness :
  busy initialHook = false
  /\ hasKey keylessSetup = false
  /\ connect (render initialHook) keylessSetup initialHook =
     {| final := initialHook;
        calls := [EOnError "API Key not found"];
        completion := Normal tt |}.
Proof.
  assert (Hidle : busy initialHook = false) by reflexivity.
  assert (Hkey : hasKey keylessSetup = false) by reflexivity.
  repeat (split; [assumption|]).
  exact (connect_without_key_fails_fast keylessSetup initialHook Hidle Hkey).
Defined.

Lemma connect_device_refused_keeps_contexts_witness :
  busy initialHook = false
  /\ hasKey refusedSetup = true
  /\ getUserMedia refusedSetup = inl "Permission denied"
  /\ reported (calls (connect (render initialHook) refusedSetup initialHook)) =
     ["Permission denied"]
  /\ openContexts (calls (connect (render initialHook) refusedSetup initialHook)) [] =
     [0%nat; 1%nat].
Proof.
  assert (Hidle : busy initialHook = false) by reflexivity.
  assert (Hkey : hasKey refusedSetup = true) by reflexivity.
  assert (Hdev : getUserMedia refusedSetup = inl "Permission denied") by reflexivity.
  repeat (split; [assumption|]).
  destruct (connect_device_refused_keeps_contexts refusedSetup initialHook
              "Permission denied" Hidle Hkey Hdev)
    as (_ & Hcalls & _ & _ & _ & _ & _ & _ & Hopen).
  split; [rewrite Hcalls; reflexivity | exact Hopen].
Defined.

Lemma refused_contexts_leak_on_retry_witness :
  busy initialHook = false
  /\ hasKey refusedSetup = true
  /\ (exists err, getUserMedia refusedSetup = inl err)
  /\ hasKey sampleSetup = true
  /\ (let refusal := final (connect (render initialHook) refusedSetup initialHook) in
      let trace := snd (lifecycle [ Connect (render initialHook) refusedSetup;
                                    Connect (render refusal) sampleSetup;
                                    ChannelOpen 4%nat 6%nat; Teardown;
                                    Settled 8%nat (Fulfilled true false); Teardown ]
                          initialHook) in
      In (ENewAudioContext (heap initialHook) 16000) trace
      /\ In (ENewAudioContext (S (heap initialHook)) 24000) trace
      /\ ~ In (EClose (heap initialHook)) trace
      /\ ~ In (EClose (S (heap initialHook))) trace).
Proof.
  assert (Hidle : busy initialHook = false) by reflexivity.
  assert (Hkey1 : hasKey refusedSetup = true) by reflexivity.
  assert (Hdev : exists err, getUserMedia refusedSetup = inl err)
    by (exists "Permission denied"; reflexivity).
  assert (Hkey2 : hasKey sampleSetup = true) by reflexivity.
  repeat (split; [assumption|]).
  exact (refused_contexts_leak_on_retry refusedSetup sampleSetup initialHook
           [ChannelOpen 4%nat 6%nat; Teardown; Settled 8%nat (Fulfilled true false);
            Teardown] Hidle Hkey1 Hdev Hkey2).
Defined.


Lemma missing_parts_drops_whole_message_witness :
  lacksParts partlessMessage = true
  /\ onmessage sampleBase64ToBytes samplePcmDecoder (reading 5 1000) partlessMessage
       playingHook =
     {| final := playingHook; calls := []; completion := Throw "TypeError" |}.
Proof.
  assert (Hparts : lacksParts partlessMessage = true) by reflexivity.
  split; [exact Hparts|].
  exact (missing_parts_drops_whole_message sampleBase64ToBytes samplePcmDecoder
           (reading 5 1000) partlessMessage playingHook Hparts).
Defined.

Lemma audio_ignored_without_output_context_witness :
  outputAudioContextRef initialHook = None
  /\ lacksParts crowdedMessage = false
  /\ (let o := onmessage sampleBase64ToBytes samplePcmDecoder (reading 5 1000)
                 crowdedMessage initialHook in
      o = onmessage sampleBase64ToBytes samplePcmDecoder (reading 5 1000)
            (withoutAudio crowdedMessage) initialHook
      /\ scheduled (calls o) = []
      /\ completion o = Normal tt
      /\ nextStartTimeRef (final o) =
         (if isInterrupted crowdedMessage then 0 else nextStartTimeRef initialHook)).
Proof.
  assert (Hctx : outputAudioContextRef initialHook = None) by reflexivity.
  assert (Hparts : lacksParts crowdedMessage = false) by reflexivity.
  repeat (split; [assumption|]).
  exact (audio_ignored_without_output_context sampleBase64ToBytes samplePcmDecoder
           (reading 5 1000) crowdedMessage initialHook Hctx Hparts).
Defined.

Lemma output_transcription_shadows_input_witness :
  onmessage sampleBase64ToBytes samplePcmDecoder (reading 5 1000) crowdedMessage
    initialHook =
  onmessage sampleBase64ToBytes samplePcmDecoder (reading 5 1000)
    (withoutInput crowdedMessage) initialHook.
Proof.
  exact (output_transcription_shadows_input sampleBase64ToBytes samplePcmDecoder
           (reading 5 1000) crowdedMessage initialHook _ _ eq_refl eq_refl).
Defined.

Lemma interrupted_audio_is_started_then_stopped_witness :
  outputAudioContextRef playingHook = Some 1%nat
  /\ truthy "AAA=" = true
  /\ decoded sampleBase64ToBytes samplePcmDecoder "AAA=" = Some {| duration := 1 |}
  /\ stopped (calls (onmessage sampleBase64ToBytes samplePcmDecoder (reading 9 1002)
                       (interruptedAudioEvent "AAA=") playingHook)) =
     [7%nat; 8%nat; 9%nat]
  /\ audioSourcesRef (final (onmessage sampleBase64ToBytes samplePcmDecoder
                               (reading 9 1002) (interruptedAudioEvent "AAA=")
                               playingHook)) = [].
Proof.
  assert (Hctx : outputAudioContextRef playingHook = Some 1%nat) by reflexivity.
  assert (Hp : truthy "AAA=" = true) by reflexivity.
  assert (Hd : decoded sampleBase64ToBytes samplePcmDecoder "AAA="
               = Some {| duration := 1 |}) by reflexivity.
  repeat (split; [assumption|]).
  destruct (interrupted_audio_is_started_then_stopped sampleBase64ToBytes
              samplePcmDecoder (reading 9 1002) "AAA=" {| duration := 1 |} 1%nat
              playingHook Hctx Hp Hd) as (_ & _ & Hs & _ & He & _).
  split; [rewrite Hs; reflexivity | exact He].
Defined.

Lemma ended_source_leaves_set_witness :
  sourcesFresh playingHook
  /\ outputAudioContextRef playingHook = Some 1%nat
  /\ truthy "AAAAAA==" = true
  /\ decoded sampleBase64ToBytes samplePcmDecoder "AAAAAA==" = Some {| duration := 2 |}
  /\ (let source := {| source_id := heap playingHook; buffer := {| duration := 2 |} |} in
      let playing := final (onmessage sampleBase64ToBytes samplePcmDecoder
                              (reading 9 1002) (audioPayloadEvent "AAAAAA==")
                              playingHook) in
      audioSourcesRef playing = audioSourcesRef playingHook ++ [source]
      /\ audioSourcesRef (final (onended source playing)) = audioSourcesRef playingHook
      /\ nextStartTimeRef (final (onended source playing)) = nextStartTimeRef playing).
Proof.
  assert (Hf : sourcesFresh playingHook).
  { split; vm_compute; repeat constructor;
    intros H; repeat (destruct H as [H | H]; try discriminate H); exact H. }
  assert (Hctx : outputAudioContextRef playingHook = Some 1%nat) by reflexivity.
  assert (Hp : truthy "AAAAAA==" = true) by reflexivity.
  assert (Hd : decoded sampleBase64ToBytes samplePcmDecoder "AAAAAA=="
               = Some {| duration := 2 |}) by reflexivity.
  repeat (split; [assumption|]).
  exact (ended_source_leaves_set sampleBase64ToBytes samplePcmDecoder (reading 9 1002)
           "AAAAAA==" {| duration := 2 |} 1%nat playingHook Hf Hctx Hp Hd).
Defined.

Lemma no_source_is_stopped_twice_witness :
  sourcesFresh activeHook
  /\ NoDup (stopped (snd (deliver sampleBase64ToBytes samplePcmDecoder bargeInRun
                            activeHook))).
Proof.
  assert (Hf : sourcesFresh activeHook) by (split; constructor).
  split; [exact Hf|].
  exact (no_source_is_stopped_twice sampleBase64ToBytes samplePcmDecoder bargeInRun
           activeHook Hf).
Defined.

Lemma only_started_sources_are_stopped_witness :
  audioSourcesRef activeHook = []
  /\ (let trace := snd (deliver sampleBase64ToBytes samplePcmDecoder bargeInRun
                          activeHook) in
      incl (stopped trace) (started trace)).
Proof.
  assert (He : audioSourcesRef activeHook = []) by reflexivity.
  split; [exact He|].
  exact (only_started_sources_are_stopped sampleBase64ToBytes samplePcmDecoder
           bargeInRun activeHook He).
Defined.

Lemma partials_are_transient_witness :
  Forall (fun p => role p = role (finalMessage model "ami bhalo achi" (reading 8 1003))
                   /\ isPartial p = true)
         (partials model "" sampleFragments)
  /\ fold_left handleMessage
       (partials model "" sampleFragments
        ++ [finalMessage model "ami bhalo achi" (reading 8 1003)]) [] =
     handleMessage [] (finalMessage model "ami bhalo achi" (reading 8 1003)).
Proof.
  assert (Hps : Forall (fun p => role p = role (finalMessage model "ami bhalo achi"
                                                  (reading 8 1003))
                                 /\ isPartial p = true)
                       (partials model "" sampleFragments))
    by (repeat constructor).
  split; [exact Hps|].
  exact (partials_are_transient _ _ [] Hps).
Defined.

Lemma single_role_turn_shows_one_message_witness :
  transcript (other model) activeHook = ""
  /\ truthy (bufferAfter (transcript model activeHook) sampleFragments) = true
  /\ chat [] (snd (deliver sampleBase64ToBytes samplePcmDecoder
                     (fragments model sampleFragments
                      ++ [Inbound (reading 8 1003) turnCompleteEvent]) activeHook)) =
     [finalMessage model "ami bhalo achi" (reading 8 1003)].
Proof.
  assert (Ho : transcript (other model) activeHook = "") by reflexivity.
  assert (Ht : truthy (bufferAfter (transcript model activeHook) sampleFragments) = true)
    by reflexivity.
  repeat (split; [assumption|]).
  exact (single_role_turn_shows_one_message sampleBase64ToBytes samplePcmDecoder
           model sampleFragments (reading 8 1003) activeHook [] Ho Ht).
Defined.

Lemma interleaved_roles_keep_stale_partials_witness :
  currentInputTranscription activeHook = ""
  /\ currentOutputTranscription activeHook = ""
  /\ truthy "tumi" = true
  /\ truthy "ami" = true
  /\ endsPartial user [] = false
  /\ (let run := deliver sampleBase64ToBytes samplePcmDecoder
                   [ Inbound (reading 5 1000) (fragmentEvent user "tumi");
                     Inbound (reading 6 1001) (fragmentEvent model "ami");
                     Inbound (reading 7 1002) turnCompleteEvent ] activeHook in
      chat [] (snd run) =
      [] ++ [ partialMessage user "tumi" (reading 5 1000);
              partialMessage model "ami" (reading 6 1001);
              finalMessage user "tumi" (reading 7 1002);
              finalMessage model "ami" (reading 7 1002) ]).
Proof.
  assert (Hin : currentInputTranscription activeHook = "") by reflexivity.
  assert (Hout : currentOutputTranscription activeHook = "") by reflexivity.
  assert (Hu : truthy "tumi" = true) by reflexivity.
  assert (Hm : truthy "ami" = true) by reflexivity.
  assert (Hprev : endsPartial user [] = false) by reflexivity.
  repeat (split; [assumption|]).
  exact (interleaved_roles_keep_stale_partials sampleBase64ToBytes samplePcmDecoder
           "tumi" "ami" (reading 5 1000) (reading 6 1001) (reading 7 1002)
           activeHook [] Hin Hout Hu Hm Hprev).
Defined.

Lemma active_session_holds_distinct_resources_witness :
  seenBusy (render initialHook) = false
  /\ hasKey sampleSetup = true
  /\ getUserMedia sampleSetup = inr {| getTracks := [100%nat] |}
  /\ NoDup (getTracks {| getTracks := [100%nat] |})
  /\ NoDup (held activeHook)
  /\ calls (cleanup activeHook) =
       [ ETrackStop 100%nat; EDisconnect (ScriptProcessor 6%nat);
         EDisconnect (Analyser 2%nat); EDisconnect (Analyser 3%nat);
         EClose 0%nat; EClose 1%nat; ESessionThen 4%nat; EOnDisconnect ].
Proof.
  assert (Hidle : seenBusy (render initialHook) = false) by reflexivity.
  assert (Hkey : hasKey sampleSetup = true) by reflexivity.
  assert (Hdev : getUserMedia sampleSetup = inr {| getTracks := [100%nat] |})
    by reflexivity.
  assert (Ht : NoDup (getTracks {| getTracks := [100%nat] |}))
    by (repeat constructor; intros []).
  repeat (split; [assumption|]).
  destruct (active_session_holds_distinct_resources (render initialHook) sampleSetup
              {| getTracks := [100%nat] |} 0%nat 2%nat initialHook Hidle Hkey Hdev Ht)
    as (_ & _ & _ & Hn & Hr & _).
  split; [exact Hn | exact Hr].
Defined.

Lemma start_times_are_never_negative_witness :
  (forall payload b,
      decoded sampleBase64ToBytes samplePcmDecoder payload = Some b -> 0 <= duration b)
  /\ 0 <= nextStartTimeRef activeHook
  /\ (let run := deliver sampleBase64ToBytes samplePcmDecoder bargeInRun activeHook in
      0 <= nextStartTimeRef (fst run)
      /\ Forall (fun c => 0 <= fst c) (scheduled (snd run))).
Proof.
  assert (Hns : 0 <= nextStartTimeRef activeHook) by (cbn; lia).
  split; [exact sample_durations|]. split; [exact Hns|].
  exact (start_times_are_never_negative sampleBase64ToBytes samplePcmDecoder
           bargeInRun activeHook sample_durations Hns).
Defined.

